(** * automation.py: file-processing tasks behind two HTTP endpoints

    A shallow embedding of [automation.py].  The module keeps all of its
    state in the file system under [DATA_DIR]; each task reads fixed input
    files, computes a value and writes one output file, and the two
    handlers [run_task] and [get_task_output] turn task names into an
    execution or a retrieval.

    Layout of this development:
    - Python text primitives ([startswith], [strip], [readlines], ...);
    - the file system as a directory tree, and the effect monad [M] that
      threads it, collects the trace of guard calls and file-system calls,
      and propagates exceptions;
    - the external libraries (strptime, json, sqlite3, tesseract, regular
      expressions, sentence embeddings) as a record of functions;
    - the tasks and the two handlers, translated line by line;
    - the properties. *)

From Stdlib Require Import List String Ascii ZArith Lia Bool.
From Stdlib Require Import Permutation Sorted DecimalString SpecFloat.
Import ListNotations.
Local Open Scope string_scope.
Local Open Scope list_scope.

(** ** Python text primitives

    A Python [str] is modelled by [string]; its characters are the 8-bit
    [ascii] codes, so text outside Latin-1 is not represented. *)

Definition LF : ascii := "010"%char.
Definition CR : ascii := "013"%char.
Definition NL : string := String LF EmptyString.

(** [s.startswith(p)] *)
Definition startswith (s p : string) : bool := String.prefix p s.

Fixpoint rev_string_onto (s acc : string) : string :=
  match s with
  | EmptyString => acc
  | String c r => rev_string_onto r (String c acc)
  end.

Definition rev_string (s : string) : string := rev_string_onto s EmptyString.

(** [s.endswith(p)] *)
Definition endswith (s p : string) : bool :=
  String.prefix (rev_string p) (rev_string s).

(** [c.isspace()] for the code points below 256. *)
Definition isspace (c : ascii) : bool :=
  let n := nat_of_ascii c in
  ((9 <=? n)%nat && (n <=? 13)%nat) || ((28 <=? n)%nat && (n <=? 32)%nat)
  || (n =? 133)%nat || (n =? 160)%nat.

Fixpoint lstrip (s : string) : string :=
  match s with
  | EmptyString => EmptyString
  | String c r => if isspace c then lstrip r else s
  end.

Fixpoint rstrip (s : string) : string :=
  match s with
  | EmptyString => EmptyString
  | String c r =>
      match rstrip r with
      | EmptyString => if isspace c then EmptyString else String c EmptyString
      | r' => String c r'
      end
  end.

(** [s.strip()] *)
Definition strip (s : string) : string := rstrip (lstrip s).

(** Truth value of a [str]: the empty string is false. *)
Definition truthy (s : string) : bool :=
  match s with EmptyString => false | String _ _ => true end.

(** Text mode with the default [newline=None]: on reading, a carriage
    return, alone or followed by a line feed, becomes one line feed. *)
Fixpoint universal_newlines (s : string) : string :=
  match s with
  | EmptyString => EmptyString
  | String c r =>
      if Ascii.eqb c CR then
        match r with
        | String c2 r2 =>
            if Ascii.eqb c2 LF then String LF (universal_newlines r2)
            else String LF (universal_newlines r)
        | EmptyString => String LF EmptyString
        end
      else String c (universal_newlines r)
  end.

(** The lines of a text, each with its terminating line feed (the last one
    without, when the text does not end in one).  [cur] is the line being
    read, reversed. *)
Fixpoint lines_from (cur : string) (s : string) : list string :=
  match s with
  | EmptyString =>
      match cur with
      | EmptyString => []
      | _ => [rev_string cur]
      end
  | String c r =>
      if Ascii.eqb c LF then rev_string (String c cur) :: lines_from EmptyString r
      else lines_from (String c cur) r
  end.

(** [f.readlines()], and [for line in f], on the text of [f]. *)
Definition readlines (text : string) : list string := lines_from EmptyString text.

(** [f.readline()] on a file just opened: the first line, or the empty
    string at end of file. *)
Definition readline (text : string) : string :=
  match readlines text with
  | [] => EmptyString
  | l :: _ => l
  end.

(** [line[2:]] *)
Definition drop2 (s : string) : string :=
  match s with
  | String _ (String _ r) => r
  | _ => EmptyString
  end.

(** [str(n)] for an [int]. *)
Definition str (n : Z) : string := NilZero.string_of_int (Z.to_int n).

(** *** [repr(s)] for a [str]

    The text is put between apostrophes, or between double quotes when it
    holds an apostrophe and no double quote.  The quote in use and the
    backslash are escaped with a backslash; tab, line feed and carriage
    return are written [\t], [\n] and [\r]; every other character that is
    not printable is written [\xhh] in lower-case hexadecimal.  Below 256 the
    printable code points are 32 to 126 and 161 to 255 without 173. *)

Definition APOSTROPHE : ascii := "039"%char.
Definition QUOTE : ascii := "034"%char.
Definition BACKSLASH : ascii := "092"%char.
Definition TAB : ascii := "009"%char.

(** [c.isprintable()] for the code points below 256. *)
Definition isprintable (c : ascii) : bool :=
  let n := nat_of_ascii c in
  ((32 <=? n)%nat && (n <=? 126)%nat) || ((161 <=? n)%nat && negb (n =? 173)%nat).

Definition hex_digit (n : nat) : ascii :=
  match String.get n "0123456789abcdef" with
  | Some c => c
  | None => "0"%char
  end.

Definition repr_char (quote c : ascii) : string :=
  if Ascii.eqb c quote || Ascii.eqb c BACKSLASH then
    String BACKSLASH (String c EmptyString)
  else if Ascii.eqb c TAB then "\t"
  else if Ascii.eqb c LF then "\n"
  else if Ascii.eqb c CR then "\r"
  else if isprintable c then String c EmptyString
  else
    let n := nat_of_ascii c in
    ("\x" ++ String (hex_digit (n / 16)) (String (hex_digit (n mod 16)) ""))%string.

Fixpoint repr_chars (quote : ascii) (s : string) : string :=
  match s with
  | EmptyString => EmptyString
  | String c r => (repr_char quote c ++ repr_chars quote r)%string
  end.

(** [c in s] for a character [c]. *)
Fixpoint has_char (c : ascii) (s : string) : bool :=
  match s with
  | EmptyString => false
  | String c' r => Ascii.eqb c' c || has_char c r
  end.

Definition repr (s : string) : string :=
  let quote :=
    if has_char APOSTROPHE s && negb (has_char QUOTE s) then QUOTE
    else APOSTROPHE in
  String quote (repr_chars quote s ++ String quote EmptyString).

(** [sep.join(items)] *)
Definition join (sep : string) (items : list string) : string :=
  String.concat sep items.

(** [re.sub(r"\D", "", s)]: the decimal digits of [s]. *)
Definition isdigit (c : ascii) : bool :=
  let n := nat_of_ascii c in (48 <=? n)%nat && (n <=? 57)%nat.

Fixpoint digits_only (s : string) : string :=
  match s with
  | EmptyString => EmptyString
  | String c r => if isdigit c then String c (digits_only r) else digits_only r
  end.

(** *** Order on [str] and on pairs of [str]

    [a < b] on strings is the lexicographic order on code points; on tuples
    Python finds the first component that differs and compares there. *)

Definition str_lt (a b : string) : bool := String.ltb a b.

Definition tuple_lt (a b : string * string) : bool :=
  if String.eqb (fst a) (fst b) then str_lt (snd a) (snd b)
  else str_lt (fst a) (fst b).

(** *** [sorted]

    [sorted(items, key=key, reverse=reverse)] computes every key once and
    returns a new list in ascending key order, comparing keys with [<] only;
    the sort is stable.  With [reverse=True] the list is reversed, sorted and
    reversed again, which keeps equal keys in their original order. *)

Section Sorted.
Context {A K : Type}.
Variable lt : K -> K -> bool.
Variable key : A -> K.

Fixpoint insert_sorted (x : A) (l : list A) : list A :=
  match l with
  | [] => [x]
  | y :: r => if lt (key y) (key x) then y :: insert_sorted x r else x :: l
  end.

Fixpoint stable_sort (l : list A) : list A :=
  match l with
  | [] => []
  | x :: r => insert_sorted x (stable_sort r)
  end.

Definition py_sorted (reverse : bool) (l : list A) : list A :=
  if reverse then rev (stable_sort (rev l)) else stable_sort l.

End Sorted.

(** ** Paths *)

(** [os.path.join(a, b)] on POSIX. *)
Definition os_path_join (a b : string) : string :=
  if startswith b "/" then b
  else if negb (truthy a) || endswith a "/" then (a ++ b)%string
  else (a ++ "/" ++ b)%string.

(** The components of a path: the pieces between slashes, empty pieces
    dropped.  [cur] is the component being read, reversed. *)
Fixpoint components_from (cur : string) (s : string) : list string :=
  match s with
  | EmptyString =>
      match cur with
      | EmptyString => []
      | _ => [rev_string cur]
      end
  | String c r =>
      if Ascii.eqb c "/"%char then
        match cur with
        | EmptyString => components_from EmptyString r
        | _ => rev_string cur :: components_from EmptyString r
        end
      else components_from (String c cur) r
  end.

Definition components (path : string) : list string :=
  components_from EmptyString path.

(** ** Exceptions and responses *)

Inductive exn : Type :=
| PermissionError (msg : string)
| FileNotFoundError (path : string)
| NotADirectoryError (path : string)
| IsADirectoryError (path : string)
| NameError (name : string)
| KeyError (key : string)
| IndexError
| LibraryError (msg : string).

(** [str(e)].  An [OSError] raised with a file name prints
    [[Errno n] message: ] followed by [repr] of the name, and a [KeyError]
    prints [repr] of the key. *)
Definition str_exn (e : exn) : string :=
  match e with
  | PermissionError msg => msg
  | FileNotFoundError p => "[Errno 2] No such file or directory: " ++ repr p
  | NotADirectoryError p => "[Errno 20] Not a directory: " ++ repr p
  | IsADirectoryError p => "[Errno 21] Is a directory: " ++ repr p
  | NameError n => "name '" ++ n ++ "' is not defined"
  | KeyError k => repr k
  | IndexError => "list index out of range"
  | LibraryError msg => msg
  end%string.

(** What a handler hands to the framework: the JSON object it returns, or
    the [HTTPException] it raises. *)
Inductive response : Type :=
| Json (members : list (string * string))
| HTTPException (status_code : Z) (detail : string).

(** ** The file system

    The working directory is a tree.  A regular file has a modification
    time and its text; a directory has a modification time and its entries
    in listing order.  Times are the values [os.path.getmtime] reports. *)

#[warnings="-register-all"]
Inductive node : Type :=
| File (mtime : Z) (data : string)
| Dir (mtime : Z) (entries : list (string * node)).

Definition node_mtime (n : node) : Z :=
  match n with File t _ => t | Dir t _ => t end.

Record world : Type := World { cwd : node; clock : Z }.

Fixpoint assoc {V : Type} (k : string) (l : list (string * V)) : option V :=
  match l with
  | [] => None
  | (k', v) :: r => if String.eqb k k' then Some v else assoc k r
  end.

(** Replaces the value of the first entry under [k]. *)
Fixpoint replace {V : Type} (k : string) (v : V) (l : list (string * V))
  : list (string * V) :=
  match l with
  | [] => []
  | (k', v') :: r =>
      if String.eqb k k' then (k', v) :: r else (k', v') :: replace k v r
  end.

Inductive lookup : Type :=
| Found (n : node)
| Missing
| NotDir.

(** Follows the components of a path down from [n]. *)
Fixpoint walk (n : node) (comps : list string) : lookup :=
  match comps with
  | [] => Found n
  | c :: cs =>
      match n with
      | File _ _ => NotDir
      | Dir _ es =>
          match assoc c es with
          | Some n' => walk n' cs
          | None => Missing
          end
      end
  end.

Inductive store_error : Type :=
| StoreMissing
| StoreNotDir
| StoreIsDir.

(** The tree after [open(path, "w")] and a write of [data] at time [t]:
    the file is created in an existing directory, or truncated and
    rewritten. *)
Fixpoint store (n : node) (comps : list string) (t : Z) (data : string)
  : store_error + node :=
  match comps with
  | [] => inl StoreIsDir
  | c :: cs =>
      match n with
      | File _ _ => inl StoreNotDir
      | Dir m es =>
          match cs with
          | [] =>
              match assoc c es with
              | Some (Dir _ _) => inl StoreIsDir
              | Some (File _ _) => inr (Dir m (replace c (File t data) es))
              | None => inr (Dir t (es ++ [(c, File t data)]))
              end
          | _ :: _ =>
              match assoc c es with
              | Some n' =>
                  match store n' cs t data with
                  | inr n'' => inr (Dir m (replace c n'' es))
                  | inl e => inl e
                  end
              | None => inl StoreMissing
              end
          end
      end
  end.

Definition lookup_path (w : world) (path : string) : lookup :=
  walk (cwd w) (components path).

(** The text of the regular file at [path], if there is one. *)
Definition file_text (w : world) (path : string) : option string :=
  match lookup_path w path with
  | Found (File _ d) => Some d
  | _ => None
  end.

(** [open(path, "w")] would succeed. *)
Definition writable (w : world) (path : string) : bool :=
  match store (cwd w) (components path) 0 EmptyString with
  | inr _ => true
  | inl _ => false
  end.

(** ** Effects

    A computation runs from a [world] and yields the trace of its guard
    calls and file-system calls, a value or the exception that ended it,
    and the world it leaves. *)

Inductive access : Type :=
| Exists
| Listdir
| Getmtime
| OpenRead
| OpenWrite
| Connect
| ImageOpen.

Inductive event : Type :=
| Guard (path : string)
| Access (a : access) (path : string).

Record outcome (A : Type) : Type :=
  Outcome { events : list event; value : exn + A; after : world }.

Arguments Outcome {A} _ _ _.
Arguments events {A} _.
Arguments value {A} _.
Arguments after {A} _.

Definition M (A : Type) : Type := world -> outcome A.

Definition ret {A : Type} (a : A) : M A :=
  fun w => Outcome [] (inr a) w.

Definition raise {A : Type} (e : exn) : M A :=
  fun w => Outcome [] (inl e) w.

Definition bind {A B : Type} (m : M A) (k : A -> M B) : M B :=
  fun w =>
    let r := m w in
    match value r with
    | inl e => Outcome (events r) (inl e) (after r)
    | inr a =>
        let r' := k a (after r) in
        Outcome (events r ++ events r') (value r') (after r')
    end.

Notation "x <- m ;; k" := (bind m (fun x => k))
  (at level 61, m at next level, right associativity).
Notation "m ;; k" := (bind m (fun _ => k))
  (at level 61, right associativity).

Definition emit (ev : event) : M unit :=
  fun w => Outcome [ev] (inr tt) w.

(** [os.path.exists(path)] *)
Definition os_path_exists (path : string) : M bool :=
  fun w =>
    Outcome [Access Exists path]
      (inr match lookup_path w path with Found _ => true | _ => false end) w.

(** [os.listdir(path)] *)
Definition os_listdir (path : string) : M (list string) :=
  fun w =>
    Outcome [Access Listdir path]
      match lookup_path w path with
      | Found (Dir _ es) => inr (map fst es)
      | Found (File _ _) => inl (NotADirectoryError path)
      | Missing => inl (FileNotFoundError path)
      | NotDir => inl (NotADirectoryError path)
      end w.

(** [os.path.getmtime(path)] *)
Definition os_path_getmtime (path : string) : M Z :=
  fun w =>
    Outcome [Access Getmtime path]
      match lookup_path w path with
      | Found n => inr (node_mtime n)
      | Missing => inl (FileNotFoundError path)
      | NotDir => inl (NotADirectoryError path)
      end w.

Definition read_node (kind : access) (path : string) : M string :=
  fun w =>
    Outcome [Access kind path]
      match lookup_path w path with
      | Found (File _ d) => inr d
      | Found (Dir _ _) => inl (IsADirectoryError path)
      | Missing => inl (FileNotFoundError path)
      | NotDir => inl (NotADirectoryError path)
      end w.

(** [open(path, "r", encoding="utf-8")]: the text the file object reads. *)
Definition open_read (path : string) : M string :=
  text <- read_node OpenRead path ;; ret (universal_newlines text).

(** [with open(path, "w", encoding="utf-8") as f: f.write(data)] *)
Definition open_write (path : string) (data : string) : M unit :=
  fun w =>
    match store (cwd w) (components path) (clock w) data with
    | inr n => Outcome [Access OpenWrite path] (inr tt) (World n (clock w))
    | inl StoreMissing =>
        Outcome [Access OpenWrite path] (inl (FileNotFoundError path)) w
    | inl StoreNotDir =>
        Outcome [Access OpenWrite path] (inl (NotADirectoryError path)) w
    | inl StoreIsDir =>
        Outcome [Access OpenWrite path] (inl (IsADirectoryError path)) w
    end.

(** [Image.open(path)]: the bytes of the image file. *)
Definition image_open (path : string) : M string :=
  read_node ImageOpen path.

(** [sqlite3.connect(path)]: the bytes of the database file, which is
    created empty when the path names nothing yet. *)
Definition sqlite3_connect (path : string) : M string :=
  fun w =>
    match lookup_path w path with
    | Found (File _ d) => Outcome [Access Connect path] (inr d) w
    | Missing =>
        match store (cwd w) (components path) (clock w) EmptyString with
        | inr n =>
            Outcome [Access Connect path] (inr EmptyString) (World n (clock w))
        | inl _ =>
            Outcome [Access Connect path]
              (inl (LibraryError "unable to open database file")) w
        end
    | _ =>
        Outcome [Access Connect path]
          (inl (LibraryError "unable to open database file")) w
    end.

Definition try_except {A : Type} (body : M A) (handler : exn -> M A) : M A :=
  fun w =>
    let r := body w in
    match value r with
    | inr a => r
    | inl e =>
        let r' := handler e (after r) in
        Outcome (events r ++ events r') (value r') (after r')
    end.

(** A [for] loop that collects one result per item. *)
Fixpoint for_each {A B : Type} (items : list A) (body : A -> M B) : M (list B) :=
  match items with
  | [] => ret []
  | x :: rest =>
      y <- body x ;;
      ys <- for_each rest body ;;
      ret (y :: ys)
  end.

(** The result of a library call: its value, or the message of the exception
    the library raised. *)
Definition library {A : Type} (r : string + A) : M A :=
  match r with
  | inr a => ret a
  | inl msg => raise (LibraryError msg)
  end.

(** [items[i]] *)
Definition list_index (items : list string) (i : nat) : M string :=
  match nth_error items i with
  | Some x => ret x
  | None => raise IndexError
  end.

(** [sum(items)] *)
Definition py_sum (items : list Z) : Z := fold_left Z.add items 0%Z.

(** [d[k] = v] on a [dict]: the value is replaced in place when the key is
    present and appended otherwise. *)
Definition dict_set (k v : string) (d : list (string * string))
  : list (string * string) :=
  match assoc k d with
  | Some _ => replace k v d
  | None => d ++ [(k, v)]
  end.

(** ** Dates *)

Record datetime : Type :=
  Datetime { year : Z; month : Z; day : Z; hour : Z; minute : Z; second : Z }.

Definition is_leap (y : Z) : bool :=
  ((y mod 4 =? 0) && (negb (y mod 100 =? 0) || (y mod 400 =? 0)))%Z.

Definition days_before_year (y : Z) : Z :=
  (let y := y - 1 in y * 365 + y / 4 - y / 100 + y / 400)%Z.

Definition days_before_month (y m : Z) : Z :=
  (nth (Z.to_nat m) [0; 0; 31; 59; 90; 120; 151; 181; 212; 243; 273; 304; 334] 0
   + (if (2 <? m) && is_leap y then 1 else 0))%Z.

(** [d.toordinal()]: day 1 is 0001-01-01. *)
Definition toordinal (d : datetime) : Z :=
  (days_before_year (year d) + days_before_month (year d) (month d) + day d)%Z.

(** [d.weekday()]: Monday is 0, Wednesday is 2. *)
Definition weekday (d : datetime) : Z := ((toordinal d + 6) mod 7)%Z.

(** ** Records read from JSON and from the database *)

(** A contact is a JSON object; its members are kept in document order.
    Member values are strings, as the names the sort compares are. *)
Definition contact : Type := list (string * string).

(** A value of a column or of an expression, with the storage class SQLite
    gives it.  An INTEGER is a signed 64-bit integer and a REAL is an IEEE
    754 binary64 number; text and blobs in [units] or [price] are not
    represented. *)
Inductive sql_value : Type :=
| SqlNull
| SqlInteger (z : Z)
| SqlReal (r : spec_float).

(** A row of [tickets(type, units, price)]. *)
Record ticket : Type :=
  Ticket { ticket_type : string; units : sql_value; price : sql_value }.

(** The Python value of a number fetched from the database. *)
Inductive number : Type :=
| PyInt (z : Z)
| PyFloat (r : spec_float).

(** ** External libraries

    The libraries the module imports are functions of the data handed to
    them.  A call that can raise returns the message of its exception on the
    left. *)

Record externals : Type := Externals {
  (** [datetime.strptime(date_string, format)]; [None] is [ValueError] *)
  strptime : string -> string -> option datetime;
  (** [json.load(f)] on the text of a contacts file *)
  json_load : string -> string + list contact;
  (** [json.dump(contacts, f, indent=4)]: the text written *)
  json_dump_contacts : list contact -> string;
  (** [json.dump(index, f, indent=4)]: the text written *)
  json_dump_index : list (string * string) -> string;
  (** [re.search(r"From:.*?<(.*?)>", text)]: group 1 of the match *)
  search_sender : string -> option string;
  (** [pytesseract.image_to_string(Image.open(path))] on the file's bytes *)
  image_to_string : string -> string + string;
  (** [re.search(r"\b(?:\d[ -]*?){13,16}\b", text)]: the matched text *)
  search_card : string -> option string;
  (** the embedding model, the cosine similarities with a zeroed diagonal and
      [np.unravel_index(np.argmax(...))]: the row and column of the maximum *)
  most_similar : list string -> string + (nat * nat);
  (** the rows of table [tickets] in a database file, as the query reads
      them *)
  sqlite_tickets : string -> string + list ticket;
  (** what [SUM] returns once a REAL is among its values: the floating-point
      total of all of them, added up as the version of the library does *)
  real_sum : list sql_value -> spec_float;
  (** [str(x)] for a [float] *)
  str_float : spec_float -> string
}.

(** ** The module *)

Definition DATA_DIR : string := "data/".

Definition enforce_security (file_path : string) : M unit :=
  emit (Guard file_path) ;;
  if negb (startswith file_path DATA_DIR) then
    raise (PermissionError
             ("Access denied: " ++ file_path ++ " is outside " ++ DATA_DIR)%string)
  else ret tt.

Definition date_formats : list string :=
  [ "%Y-%m-%d"; "%d/%m/%Y"; "%m-%d-%Y"; "%Y/%m/%d";
    "%d %b %Y"; "%d %B %Y"; "%b %d, %Y"; "%B %d, %Y";
    "%Y-%m-%d %H:%M:%S"; "%d/%m/%Y %H:%M"; "%m-%d-%Y %I:%M %p" ].

(** [x["last_name"], x["first_name"]], the key of the contact sort. *)
Definition contact_key (x : contact) : M (string * string) :=
  match assoc "last_name" x with
  | None => raise (KeyError "last_name")
  | Some last =>
      match assoc "first_name" x with
      | None => raise (KeyError "first_name")
      | Some first => ret (last, first)
      end
  end.

(** A5: Get first lines of the 10 most recent log files *)
Definition recent_logs : M unit :=
  let logs_dir := os_path_join DATA_DIR "logs" in
  let output_file := os_path_join DATA_DIR "logs-recent.txt" in
  enforce_security output_file ;;
  names <- os_listdir logs_dir ;;
  let paths :=
    map (os_path_join logs_dir) (filter (fun f => endswith f ".log") names) in
  keyed <- for_each paths (fun p => t <- os_path_getmtime p ;; ret (t, p)) ;;
  let log_files := firstn 10 (map snd (py_sorted Z.ltb fst true keyed)) in
  first_lines <-
    for_each log_files
      (fun log =>
         enforce_security log ;;
         text <- open_read log ;;
         ret (strip (readline text))) ;;
  open_write output_file (join NL first_lines ++ NL)%string.

(** The title of the first line that starts with ["# "]. *)
Fixpoint first_heading (lines : list string) : option string :=
  match lines with
  | [] => None
  | line :: rest =>
      if startswith line "# " then Some (strip (drop2 line))
      else first_heading rest
  end.

(** The [for file in os.listdir(docs_dir)] loop of [index_markdown]. *)
Fixpoint index_files (docs_dir : string) (files : list string)
  (index : list (string * string)) : M (list (string * string)) :=
  match files with
  | [] => ret index
  | file :: rest =>
      if endswith file ".md" then
        let file_path := os_path_join docs_dir file in
        enforce_security file_path ;;
        text <- open_read file_path ;;
        match first_heading (readlines text) with
        | Some title => index_files docs_dir rest (dict_set file title index)
        | None => index_files docs_dir rest index
        end
      else index_files docs_dir rest index
  end.

(** ** The query of [total_gold_sales]

    [SELECT SUM(units * price) FROM tickets WHERE type = 'Gold'] as SQLite
    evaluates it on NULL, INTEGER and REAL values. *)

Definition in_int64 (z : Z) : bool :=
  ((- 2 ^ 63 <=? z) && (z <? 2 ^ 63))%Z.

Definition is_null (v : sql_value) : bool :=
  match v with SqlNull => true | _ => false end.

(** A number as a REAL: an integer is rounded to the nearest binary64. *)
Definition sql_real (v : sql_value) : spec_float :=
  match v with
  | SqlInteger z => binary_normalize 53 1024 z 0 false
  | SqlReal r => r
  | SqlNull => S754_zero false
  end.

(** A floating-point result: not-a-number becomes NULL. *)
Definition real_result (r : spec_float) : sql_value :=
  match r with
  | S754_nan => SqlNull
  | _ => SqlReal r
  end.

(** [a * b]: NULL when an operand is NULL, the exact product of two integers
    when it fits in 64 bits, and the floating-point product otherwise. *)
Definition sql_mul (a b : sql_value) : sql_value :=
  match a, b with
  | SqlNull, _ => SqlNull
  | _, SqlNull => SqlNull
  | SqlInteger x, SqlInteger y =>
      if in_int64 (x * y) then SqlInteger (x * y)
      else real_result (SFmul 53 1024 (sql_real a) (sql_real b))
  | _, _ => real_result (SFmul 53 1024 (sql_real a) (sql_real b))
  end.

(** How [SUM] stands after the integers at the head of its values: their
    64-bit sum, an overflow of it, or a REAL met before any overflow. *)
Inductive sum_state : Type :=
| SumInteger (z : Z)
| SumOverflow
| SumApprox.

Fixpoint sum_integers (acc : Z) (values : list sql_value) : sum_state :=
  match values with
  | [] => SumInteger acc
  | SqlNull :: rest => sum_integers acc rest
  | SqlInteger z :: rest =>
      if in_int64 (acc + z) then sum_integers (acc + z) rest else SumOverflow
  | SqlReal _ :: _ => SumApprox
  end.

(** [x or 0] on the value fetched: [None] and a zero of either type give
    the [int] 0. *)
Definition or_zero (x : sql_value) : number :=
  match x with
  | SqlNull => PyInt 0
  | SqlInteger z => if (z =? 0)%Z then PyInt 0 else PyInt z
  | SqlReal (S754_zero _) => PyInt 0
  | SqlReal r => PyFloat r
  end.

Section Tasks.
Variable ext : externals.

(** The [for fmt in date_formats] loop of [parse_date]. *)
Fixpoint try_formats (date_str : string) (formats : list string)
  : option datetime :=
  match formats with
  | [] => None
  | fmt :: rest =>
      match strptime ext date_str fmt with
      | Some parsed => Some parsed
      | None => try_formats date_str rest
      end
  end.

Definition parse_date (date_str : string) : option datetime :=
  let date_str := strip date_str in
  try_formats date_str date_formats.

(** The condition of the generator in [count_wednesdays]. *)
Definition is_wednesday (date : string) : bool :=
  match parse_date date with
  | Some parsed_date => (weekday parsed_date =? 2)%Z
  | None => false
  end.

(** A3: Count Wednesdays in /data/dates.txt *)
Definition count_wednesdays : M unit :=
  let input_file := os_path_join DATA_DIR "dates.txt" in
  let output_file := os_path_join DATA_DIR "dates-wednesdays.txt" in
  enforce_security input_file ;;
  enforce_security output_file ;;
  present <- os_path_exists input_file ;;
  if negb present then open_write output_file ("0" ++ NL)%string
  else
    text <- open_read input_file ;;
    let dates := readlines text in
    let wednesday_count :=
      py_sum (map (fun _ => 1%Z) (filter is_wednesday dates)) in
    open_write output_file (str wednesday_count ++ NL)%string.

(** A4: Sort contacts by last and first name *)
Definition sort_contacts : M unit :=
  let input_file := os_path_join DATA_DIR "contacts.json" in
  let output_file := os_path_join DATA_DIR "contacts-sorted.json" in
  enforce_security input_file ;;
  enforce_security output_file ;;
  text <- open_read input_file ;;
  contacts <- library (json_load ext text) ;;
  keyed <- for_each contacts (fun x => k <- contact_key x ;; ret (k, x)) ;;
  let sorted_contacts := map snd (py_sorted tuple_lt fst false keyed) in
  open_write output_file (json_dump_contacts ext sorted_contacts).

(** A6: Extract first H1 titles from markdown files *)
Definition index_markdown : M unit :=
  let docs_dir := os_path_join DATA_DIR "docs" in
  let output_file := os_path_join DATA_DIR "docs/index.json" in
  enforce_security output_file ;;
  files <- os_listdir docs_dir ;;
  index <- index_files docs_dir files [] ;;
  open_write output_file (json_dump_index ext index).

(** A7: Extract sender's email from email.txt *)
Definition email_sender : M unit :=
  let input_file := os_path_join DATA_DIR "email.txt" in
  let output_file := os_path_join DATA_DIR "email-sender.txt" in
  enforce_security input_file ;;
  enforce_security output_file ;;
  present <- os_path_exists input_file ;;
  extracted_email <-
    (if present then
       text <- open_read input_file ;;
       ret match search_sender ext (strip text) with
           | Some addr => addr
           | None => EmptyString
           end
     else ret EmptyString) ;;
  open_write output_file (extracted_email ++ NL)%string.

(** A8: Extract credit card number from image using Tesseract *)
Definition extract_credit_card : M unit :=
  let input_image := os_path_join DATA_DIR "credit-card.png" in
  let output_file := os_path_join DATA_DIR "credit-card.txt" in
  enforce_security input_image ;;
  enforce_security output_file ;;
  image <- image_open input_image ;;
  text <- library (image_to_string ext image) ;;
  let extracted_card_number :=
    match search_card ext text with
    | Some matched => digits_only matched
    | None => EmptyString
    end in
  open_write output_file (extracted_card_number ++ NL)%string.

(** A9: Find most similar comments *)
Definition similar_comments : M unit :=
  let input_file := os_path_join DATA_DIR "comments.txt" in
  let output_file := os_path_join DATA_DIR "comments-similar.txt" in
  enforce_security input_file ;;
  enforce_security output_file ;;
  text <- open_read input_file ;;
  let comments :=
    map strip (filter (fun line => truthy (strip line)) (readlines text)) in
  if (List.length comments <? 2)%nat then ret tt
  else
    max_idx <- library (most_similar ext comments) ;;
    comment1 <- list_index comments (fst max_idx) ;;
    comment2 <- list_index comments (snd max_idx) ;;
    open_write output_file (comment1 ++ NL ++ comment2 ++ NL)%string.

(** [SUM(x)] over the selected rows.  NULL values are skipped and the
    result is NULL when nothing is left.  Integers are added in 64 bits:
    when that sum overflows the query fails, and when a REAL is met first the
    result is the floating-point total. *)
Definition sql_sum (xs : list sql_value) : string + sql_value :=
  match filter (fun v => negb (is_null v)) xs with
  | [] => inr SqlNull
  | values =>
      match sum_integers 0 values with
      | SumInteger z => inr (SqlInteger z)
      | SumOverflow => inl "integer overflow"
      | SumApprox => inr (real_result (real_sum ext values))
      end
  end.

(** [SELECT SUM(units * price) FROM tickets WHERE type = 'Gold'] and
    [cursor.fetchone()[0]] *)
Definition select_gold_total (tickets : list ticket) : string + sql_value :=
  sql_sum
    (map (fun r => sql_mul (units r) (price r))
       (filter (fun r => String.eqb (ticket_type r) "Gold") tickets)).

(** [f"{total_sales}"] *)
Definition format_number (x : number) : string :=
  match x with
  | PyInt z => str z
  | PyFloat r => str_float ext r
  end.

(** A10: Calculate total sales for 'Gold' tickets *)
Definition total_gold_sales : M unit :=
  let db_file := os_path_join DATA_DIR "ticket-sales.db" in
  let output_file := os_path_join DATA_DIR "ticket-sales-gold.txt" in
  enforce_security db_file ;;
  enforce_security output_file ;;
  database <- sqlite3_connect db_file ;;
  tickets <- library (sqlite_tickets ext database) ;;
  fetched <- library (select_gold_total tickets) ;;
  let total_sales := or_zero fetched in
  open_write output_file (format_number total_sales ++ NL)%string.

Definition task_map : list (string * M unit) :=
  [ ("count_wednesdays", count_wednesdays);
    ("sort_contacts", sort_contacts);
    ("recent_logs", recent_logs);
    ("index_markdown", index_markdown);
    ("email_sender", email_sender);
    ("extract_credit_card", extract_credit_card);
    ("similar_comments", similar_comments);
    ("total_gold_sales", total_gold_sales) ].

(** [POST /run] *)
Definition run_task (task : string) : M response :=
  match assoc task task_map with
  | None => ret (HTTPException 400 "Invalid task")
  | Some run =>
      try_except
        (run ;; ret (Json [("status", "success")]))
        (fun e => ret (HTTPException 500 (str_exn e)))
  end.

End Tasks.

Definition output_map : list (string * string) :=
  [ ("count_wednesdays", "dates-wednesdays.txt");
    ("sort_contacts", "contacts-sorted.json");
    ("recent_logs", "logs-recent.txt");
    ("index_markdown", "docs/index.json");
    ("email_sender", "email-sender.txt");
    ("extract_credit_card", "credit-card.txt");
    ("similar_comments", "comments-similar.txt");
    ("total_gold_sales", "ticket-sales-gold.txt") ].

(** Every name the module binds at top level: its imports, its assignments
    and its function definitions. *)
Definition module_globals : list string :=
  [ "os"; "sqlite3"; "json"; "re"; "pytesseract"; "datetime";
    "SentenceTransformer"; "util"; "FastAPI"; "HTTPException"; "Image"; "np";
    "DATA_DIR"; "app"; "enforce_security"; "date_formats"; "parse_date";
    "count_wednesdays"; "sort_contacts"; "recent_logs"; "index_markdown";
    "email_sender"; "extract_credit_card"; "similar_comments";
    "total_gold_sales"; "run_task"; "get_task_output" ].

(** A call [name(arg)] of a global: [NameError] when nothing is bound to the
    name, else the call of what is bound. *)
Definition call_global {A B : Type} (name : string) (bound : option (A -> M B))
  (arg : A) : M B :=
  match bound with
  | Some f => f arg
  | None => raise (NameError name)
  end.

(** [GET /get], given what the name [read_output_file] is bound to. *)
Definition get_task_output_with (helper : option (string -> M string))
  (task : string) : M response :=
  match assoc task output_map with
  | None => ret (HTTPException 400 "Invalid task")
  | Some name =>
      try_except
        (let output_file := os_path_join DATA_DIR name in
         content <- call_global "read_output_file" helper output_file ;;
         ret (Json [("output", content)]))
        (fun e => ret (HTTPException 500 (str_exn e)))
  end.

(** automation.py calls [read_output_file] and neither defines nor imports
    it: the name is not among [module_globals], and it is no builtin. *)
Definition read_output_file : option (string -> M string) := None.

(** [GET /get] *)
Definition get_task_output (task : string) : M response :=
  get_task_output_with read_output_file task.

(** Modelled from the spec: the reader that [get_task_output] calls and
    automation.py lacks.  It reads the output file in full and returns its
    content, and fails when the file is absent or cannot be read. *)
Definition read_output_file_spec (path : string) : M string := open_read path.

(** ** Well-formed file systems

    An entry name is not empty and holds no slash, and a directory has no
    two entries of one name. *)

Fixpoint has_slash (s : string) : bool :=
  match s with
  | EmptyString => false
  | String c r => Ascii.eqb c "/"%char || has_slash r
  end.

Definition valid_name (name : string) : bool :=
  truthy name && negb (has_slash name).

Fixpoint distinct (names : list string) : bool :=
  match names with
  | [] => true
  | x :: r => negb (existsb (String.eqb x) r) && distinct r
  end.

Fixpoint valid_node (n : node) : bool :=
  match n with
  | File _ _ => true
  | Dir _ es =>
      distinct (map fst es)
      && forallb (fun e => valid_name (fst e) && valid_node (snd e)) es
  end.

Definition valid_world (w : world) : bool := valid_node (cwd w).

(** ** What the properties speak of *)

(** The fixed set of task names, the keys of both dictionaries. *)
Definition known_tasks : list string :=
  [ "count_wednesdays"; "sort_contacts"; "recent_logs"; "index_markdown";
    "email_sender"; "extract_credit_card"; "similar_comments";
    "total_gold_sales" ].

(** The calls that open a path for reading or writing, or test it; listing a
    directory and asking for a modification time are the other two. *)
Definition opens (a : access) : bool :=
  match a with
  | Listdir | Getmtime => false
  | _ => true
  end.

(** Every file-system call of a trace comes after a guard call on its
    path. *)
Definition every_access_guarded (tr : list event) : Prop :=
  forall before a p rest,
    tr = before ++ Access a p :: rest -> In (Guard p) before.

(** Every call of a trace that opens or tests a path comes after a guard
    call on that path, and the path starts with the data root. *)
Definition every_open_guarded (tr : list event) : Prop :=
  forall before a p rest,
    tr = before ++ Access a p :: rest ->
    opens a = true ->
    In (Guard p) before /\ startswith p DATA_DIR = true.

(** The paths of a trace that passed the guard, latest first, before
    [seen]. *)
Fixpoint passed (tr : list event) (seen : list string) : list string :=
  match tr with
  | [] => seen
  | Guard p :: r =>
      passed r (if startswith p DATA_DIR then p :: seen else seen)
  | Access _ _ :: r => passed r seen
  end.

(** Scanning a trace with the paths that passed the guard so far: each
    opening call is on one of them. *)
Fixpoint trace_ok (seen : list string) (tr : list event) : Prop :=
  match tr with
  | [] => True
  | Guard p :: r =>
      trace_ok (if startswith p DATA_DIR then p :: seen else seen) r
  | Access a p :: r => (opens a = true -> In p seen) /\ trace_ok seen r
  end.

(** [m] opens only guarded paths when it starts with the paths [pre]
    guarded, and leaves the paths [post] guarded when it completes. *)
Definition guards {A : Type} (pre : list string) (m : M A) (post : list string)
  : Prop :=
  forall w seen,
    incl pre seen ->
    trace_ok seen (events (m w))
    /\ (forall a, value (m w) = inr a -> incl post (passed (events (m w)) seen)).

(** No guard call of [m] from [w] fails, and [m] does not end in
    [PermissionError]. *)
Definition guard_safe {A : Type} (m : M A) (w : world) : Prop :=
  (forall p, In (Guard p) (events (m w)) -> startswith p DATA_DIR = true)
  /\ (forall msg, value (m w) <> inl (PermissionError msg)).

(** A contact record has a last name and a first name. *)
Definition is_contact (x : contact) : bool :=
  match assoc "last_name" x, assoc "first_name" x with
  | Some _, Some _ => true
  | _, _ => false
  end.

(** The names a contact record is sorted by. *)
Definition names_of (x : contact) : string * string :=
  (match assoc "last_name" x with Some s => s | None => EmptyString end,
   match assoc "first_name" x with Some s => s | None => EmptyString end).

(** [x] has the names [k]. *)
Definition same_names (k : string * string) (x : contact) : bool :=
  String.eqb (fst (names_of x)) (fst k) && String.eqb (snd (names_of x)) (snd k).

(** [k1 <= k2] on (last_name, first_name) pairs, lexicographically. *)
Definition names_le (k1 k2 : string * string) : Prop :=
  String.ltb (fst k1) (fst k2) = true
  \/ (fst k1 = fst k2 /\ String.leb (snd k1) (snd k2) = true).

(** The [*.log] entries of a directory, and the line [recent_logs] takes
    from one. *)
Definition log_entries (es : list (string * node)) : list (string * node) :=
  filter (fun e => endswith (fst e) ".log") es.

Definition is_file (n : node) : bool :=
  match n with File _ _ => true | Dir _ _ => false end.

Definition node_data (n : node) : string :=
  match n with File _ d => d | Dir _ _ => EmptyString end.

Definition first_line (e : string * node) : string :=
  strip (readline (universal_newlines (node_data (snd e)))).

(** The lines of the file at [path], as [readlines] gives them; none when
    there is no such file. *)
Definition output_lines (w : world) (path : string) : list string :=
  match file_text w path with
  | Some text => readlines text
  | None => []
  end.

(** [s] holds a line feed. *)
Fixpoint has_lf (s : string) : bool :=
  match s with
  | EmptyString => false
  | String c r => Ascii.eqb c LF || has_lf r
  end.

(** A line as [readline] returns it: a line feed can only be its last
    character. *)
Fixpoint lf_only_last (s : string) : bool :=
  match s with
  | EmptyString => true
  | String c r =>
      match r with
      | EmptyString => true
      | String _ _ => negb (Ascii.eqb c LF) && lf_only_last r
      end
  end.












(** ** Sample data

    A small data directory and the answers of the libraries on its files,
    used to run the tasks. *)

Definition sample_contacts : list contact :=
  [ [("first_name", "Bob"); ("last_name", "Young"); ("email", "b@x.org")];
    [("first_name", "Ann"); ("last_name", "Adams"); ("email", "first@x.org")];
    [("first_name", "Cy"); ("last_name", "Young"); ("email", "c@x.org")];
    [("first_name", "Ann"); ("last_name", "Adams"); ("email", "second@x.org")] ].

Definition sample_tickets : list ticket :=
  [ Ticket "Gold" (SqlInteger 2) (SqlInteger 5);
    Ticket "Silver" (SqlInteger 10) (SqlInteger 1);
    Ticket "Gold" (SqlInteger 1) (SqlInteger 3);
    Ticket "Gold" SqlNull (SqlInteger 7) ].

(** Two Gold rows whose sum leaves 64 bits. *)
Definition large_tickets : list ticket :=
  [ Ticket "Gold" (SqlInteger (2 ^ 62)) (SqlInteger 1);
    Ticket "Gold" (SqlInteger (2 ^ 62)) (SqlInteger 1) ].

(** The rows of the sample with REAL prices 5.0 and 3.0. *)
Definition real_tickets : list ticket :=
  [ Ticket "Gold" (SqlInteger 2) (SqlReal (S754_finite false 5 0));
    Ticket "Gold" (SqlInteger 1) (SqlReal (S754_finite false 3 0)) ].

(** Floating-point values added from left to right, and the text of the
    one total the samples reach. *)
Definition sample_real_sum (values : list sql_value) : spec_float :=
  fold_left (fun acc v => SFadd 53 1024 acc (sql_real v)) values
    (S754_zero false).

Definition sample_str_float (r : spec_float) : string :=
  if SFeqb r (binary_normalize 53 1024 13 0 false) then "13.0" else "inf".

Definition sample_render (members : list (string * string)) : string :=
  join "," (map (fun kv => fst kv ++ "=" ++ snd kv)%string members).

Definition sample_ext : externals :=
  {| strptime := fun s fmt =>
       if String.eqb fmt "%Y-%m-%d" then
         assoc s [ ("2024-01-03", Datetime 2024 1 3 0 0 0);
                   ("2024-01-04", Datetime 2024 1 4 0 0 0) ]
       else if String.eqb fmt "%d/%m/%Y" then
         assoc s [ ("10/01/2024", Datetime 2024 1 10 0 0 0) ]
       else None;
     json_load := fun text =>
       if String.eqb text "contacts" then inr sample_contacts
       else inl "Expecting value: line 1 column 1 (char 0)";
     json_dump_contacts := fun cs => join ";" (map sample_render cs);
     json_dump_index := sample_render;
     search_sender := fun _ => None;
     image_to_string := fun _ => inl "cannot identify image file";
     search_card := fun _ => None;
     most_similar := fun _ => inr (0, 1)%nat;
     sqlite_tickets := fun bytes =>
       if String.eqb bytes "tickets" then inr sample_tickets
       else if String.eqb bytes "large" then inr large_tickets
       else if String.eqb bytes "real" then inr real_tickets
       else inl "no such table: tickets";
     real_sum := sample_real_sum;
     str_float := sample_str_float |}.

Definition sample_logs : list (string * node) :=
  [ ("a.log", File 5 ("alpha" ++ NL ++ "more" ++ NL));
    ("notes.txt", File 7 "not a log");
    ("b.log", File 9 ("  beta " ++ NL));
    ("c.log", File 1 EmptyString) ]%string.

Definition sample_data : list (string * node) :=
  [ ("dates.txt",
     File 2 ("2024-01-03" ++ NL ++ "2024-01-04" ++ NL ++ " 10/01/2024 " ++ NL
             ++ "someday" ++ NL));
    ("contacts.json", File 2 "contacts");
    ("logs", Dir 9 sample_logs);
    ("docs", Dir 3 [("readme.md", File 3 ("intro" ++ NL ++ "# Title" ++ NL))]);
    ("comments.txt", File 2 ("only one comment" ++ NL ++ "   " ++ NL));
    ("ticket-sales.db", File 2 "tickets");
    ("dates-wednesdays.txt", File 4 ("2" ++ NL)) ]%string.

Definition sample_world : world :=
  World (Dir 9 [("data", Dir 9 sample_data)]) 100.

(** The data directory with an empty [logs] directory. *)
Definition empty_logs_world : world :=
  World (Dir 9 [("data", Dir 9 [("logs", Dir 9 [])])]) 100.




(** ** Further notions *)

(** The calls that can create or change a file: an open for writing, and
    a connection to a database, which creates the file when it is missing. *)
Definition creates (a : access) : bool :=
  match a with
  | OpenWrite | Connect => true
  | _ => false
  end.

(** Among the events [tr], the calls that can create or change a file are
    connections to the databases [dbs]. *)
Definition connects_only (dbs : list string) (tr : list event) : Prop :=
  forall a q, creates a = true -> In (Access a q) tr -> a = Connect /\ In q dbs.

(** A trace whose calls that can create or change a file are connections
    to the databases [dbs], followed by at most one open for writing, of [p],
    as the last call. *)
Definition writes_last (dbs : list string) (p : string) (tr : list event)
  : Prop :=
  exists before,
    (tr = before \/ tr = before ++ [Access OpenWrite p])
    /\ connects_only dbs before.

(** [m] never opens a file for writing, and connects to [dbs] only. *)
Definition no_write {A : Type} (dbs : list string) (m : M A) : Prop :=
  forall w, connects_only dbs (events (m w)).

(** [m] opens at most [p] for writing, as the last thing it does. *)
Definition last_write {A : Type} (dbs : list string) (p : string) (m : M A)
  : Prop :=
  forall w, writes_last dbs p (events (m w)).

(** The database a task connects to. *)
Definition databases (task : string) : list string :=
  if String.eqb task "total_gold_sales" then ["data/ticket-sales.db"] else [].



(** The tasks that read their input without a fallback, each with the path
    it reads first. *)
Definition required_inputs : list (string * string) :=
  [ ("sort_contacts", "data/contacts.json");
    ("recent_logs", "data/logs");
    ("index_markdown", "data/docs");
    ("extract_credit_card", "data/credit-card.png");
    ("similar_comments", "data/comments.txt") ].

(** [s] is made of decimal digits. *)
Fixpoint all_digits (s : string) : bool :=
  match s with
  | EmptyString => true
  | String c r => isdigit c && all_digits r
  end.

(** [s] is made of whitespace. *)
Fixpoint all_space (s : string) : bool :=
  match s with
  | EmptyString => true
  | String c r => isspace c && all_space r
  end.

(** The [*.md] entries of a directory, and the index entry each one gives:
    its name with the title of its first heading, or none. *)
Definition md_entries (es : list (string * node)) : list (string * node) :=
  filter (fun e => endswith (fst e) ".md") es.

Definition heading_of (e : string * node) : option string :=
  first_heading (readlines (universal_newlines (node_data (snd e)))).

Definition titles (es : list (string * node)) : list (string * string) :=
  flat_map
    (fun e =>
       match heading_of e with
       | Some title => [(fst e, title)]
       | None => []
       end)
    (md_entries es).

(** The calls [index_markdown] makes for one [*.md] entry. *)
Definition doc_calls (e : string * node) : list event :=
  [Guard ("data/docs/" ++ fst e); Access OpenRead ("data/docs/" ++ fst e)].

(** The comments [similar_comments] compares: the lines of the text that are
    not blank, stripped. *)
Definition comments_of (text : string) : list string :=
  map strip (filter (fun line => truthy (strip line)) (readlines text)).

(** A second data directory, whose contacts file holds a record without
    [last_name], and the answers of the libraries on its files. *)
Definition second_world : world :=
  World
    (Dir 9
       [("data",
          Dir 9
            [("contacts.json", File 2 "nameless");
             ("comments.txt",
              File 2 ("first comment" ++ NL ++ NL ++ " second one " ++ NL
                      ++ "third" ++ NL)%string);
             ("credit-card.png", File 2 "png");
             ("email.txt", File 2 "From: Ann <ann@x.org>");
             ("docs",
              Dir 3
                [("readme.md", File 3 ("intro" ++ NL ++ "# Title" ++ NL)%string);
                 ("notes.md", File 3 ("## not a title" ++ NL)%string);
                 ("guide.md", File 3 ("#  Guide " ++ NL ++ "# Two" ++ NL)%string);
                 ("image.png", File 3 "png")])])])
    100.

Definition second_ext : externals :=
  {| strptime := fun s fmt =>
       if String.eqb fmt "%Y-%m-%d" then
         assoc s [("2024-01-03", Datetime 2024 1 3 0 0 0)]
       else None;
     json_load := fun _ =>
       inr [ [("first_name", "Bob"); ("last_name", "Young")];
             [("first_name", "Ann")] ];
     json_dump_contacts := fun cs => join ";" (map sample_render cs);
     json_dump_index := sample_render;
     search_sender := fun _ => Some "ann@x.org";
     image_to_string := fun _ => inr "card 4026 3999-1234 5678 exp";
     search_card := fun _ => Some "4026 3999-1234 5678";
     most_similar := fun _ => inr (0, 2)%nat;
     sqlite_tickets := fun _ => inl "no such table: tickets";
     real_sum := sample_real_sum;
     str_float := sample_str_float |}.

(** The text of the regular file reached from [n] along [comps]. *)
Definition text_at (n : node) (comps : list string) : option string :=
  match walk n comps with
  | Found (File _ d) => Some d
  | _ => None
  end.



(** The [*.log] entries of a listing in the order [recent_logs] ranks them. *)
Definition ranked_logs (es : list (string * node)) : list (string * node) :=
  py_sorted Z.ltb (fun e => node_mtime (snd e)) true (log_entries es).

(** The entries last modified at [t]. *)
Definition modified_at (t : Z) (e : string * node) : bool :=
  (node_mtime (snd e) =? t)%Z.

(** A data directory in which [email.txt] is a directory. *)
Definition email_dir_world : world :=
  World (Dir 9 [("data", Dir 9 [("email.txt", Dir 9 [])])]) 100.

(** A logs directory in which two files were last modified at the same
    time. *)
Definition tied_logs : list (string * node) :=
  [ ("z.log", File 3 ("zero" ++ NL));
    ("b.log", File 7 ("one" ++ NL));
    ("a.log", File 7 ("two" ++ NL)) ]%string.

Definition tied_world : world :=
  World (Dir 9 [("data", Dir 9 [("logs", Dir 9 tied_logs)])]) 100.

(** * Properties *)

(** ** Association lists and the directory tree *)

Lemma assoc_replace {V : Type} (k : string) (v : V) (l : list (string * V)) :
  assoc k l <> None -> assoc k (replace k v l) = Some v.
Proof.
  induction l as [|[k' v'] r IH]; simpl; [congruence|].
  destruct (String.eqb k k') eqn:E; simpl; rewrite E; auto.
Qed.

Lemma assoc_app_new {V : Type} (k : string) (v : V) (l : list (string * V)) :
  assoc k l = None -> assoc k (l ++ [(k, v)]) = Some v.
Proof.
  induction l as [|[k' v'] r IH]; simpl.
  - now rewrite String.eqb_refl.
  - destruct (String.eqb k k'); [discriminate | exact IH].
Qed.

Lemma assoc_in {V : Type} (k : string) (v : V) (l : list (string * V)) :
  assoc k l = Some v -> In (k, v) l.
Proof.
  induction l as [|[k' v'] r IH]; simpl; [discriminate|].
  destruct (String.eqb_spec k k') as [->|_].
  - intros [= ->]. now left.
  - intro H. right. now apply IH.
Qed.

Lemma walk_app (comps1 comps2 : list string) :
  forall n,
    walk n (comps1 ++ comps2) =
    match walk n comps1 with
    | Found n' => walk n' comps2
    | other => other
    end.
Proof.
  induction comps1 as [|c cs IH]; intro n; simpl; [reflexivity|].
  destruct n as [|m es]; [reflexivity|].
  destruct (assoc c es); [apply IH | reflexivity].
Qed.

Lemma store_deeper (m : Z) (es : list (string * node)) (c c2 : string)
  (cs : list string) (t : Z) (d : string) :
  store (Dir m es) (c :: c2 :: cs) t d =
  match assoc c es with
  | Some n' =>
      match store n' (c2 :: cs) t d with
      | inr n'' => inr (Dir m (replace c n'' es))
      | inl e => inl e
      end
  | None => inl StoreMissing
  end.
Proof. reflexivity. Qed.

Lemma walk_store (comps : list string) :
  forall n t d n',
    store n comps t d = inr n' -> walk n' comps = Found (File t d).
Proof.
  induction comps as [|c cs IH]; intros n t d n' H; [discriminate|].
  destruct n as [|m es]; [discriminate|].
  destruct cs as [|c2 cs'].
  - cbn [store] in H.
    destruct (assoc c es) as [[|]|] eqn:E; inversion H; subst; cbn [walk].
    + rewrite assoc_replace by congruence. reflexivity.
    + rewrite assoc_app_new by assumption. reflexivity.
  - rewrite store_deeper in H.
    destruct (assoc c es) as [n1|] eqn:E; [|discriminate].
    destruct (store n1 (c2 :: cs') t d) as [e|n2] eqn:S; inversion H; subst.
    cbn [walk]. rewrite assoc_replace by congruence. now apply IH in S.
Qed.

Lemma store_any_data (comps : list string) :
  forall n t d t' d' n0,
    store n comps t d = inr n0 -> exists n1, store n comps t' d' = inr n1.
Proof.
  induction comps as [|c cs IH]; intros n t d t' d' n0 H; [discriminate|].
  destruct n as [|m es]; [discriminate|].
  destruct cs as [|c2 cs'].
  - cbn [store] in H |- *.
    destruct (assoc c es) as [[|]|]; try discriminate; eauto.
  - rewrite store_deeper in H |- *.
    destruct (assoc c es) as [n1|]; [|discriminate].
    destruct (store n1 (c2 :: cs') t d) as [e|n2] eqn:S; [discriminate|].
    destruct (IH _ _ _ t' d' _ S) as [n3 ->]. eauto.
Qed.

(** ** Running computations *)

Lemma bind_step {A B : Type} (m : M A) (k : A -> M B) (w w1 w2 : world)
  (ev ev2 evs : list event) (a : A) (v : exn + B) :
  m w = Outcome ev (inr a) w1 ->
  k a w1 = Outcome ev2 v w2 ->
  evs = ev ++ ev2 ->
  bind m k w = Outcome evs v w2.
Proof. intros H1 H2 ->. unfold bind. rewrite H1. simpl. now rewrite H2. Qed.

Lemma bind_raise {A B : Type} (m : M A) (k : A -> M B) (w w' : world)
  (ev : list event) (e : exn) :
  m w = Outcome ev (inl e) w' -> bind m k w = Outcome ev (inl e) w'.
Proof. intro H. unfold bind. now rewrite H. Qed.

Lemma enforce_security_ok (p : string) (w : world) :
  startswith p DATA_DIR = true ->
  enforce_security p w = Outcome [Guard p] (inr tt) w.
Proof. intro H. unfold enforce_security, bind, emit. simpl. now rewrite H. Qed.

Lemma enforce_security_denied (p : string) (w : world) :
  startswith p DATA_DIR = false ->
  enforce_security p w =
  Outcome [Guard p]
    (inl (PermissionError ("Access denied: " ++ p ++ " is outside " ++ DATA_DIR)))
    w.
Proof. intro H. unfold enforce_security, bind, emit. simpl. now rewrite H. Qed.

Lemma open_read_file (p : string) (w : world) (d : string) :
  file_text w p = Some d ->
  open_read p w = Outcome [Access OpenRead p] (inr (universal_newlines d)) w.
Proof.
  unfold file_text, open_read, bind, read_node. simpl.
  destruct (lookup_path w p) as [[t d'|]| |]; try discriminate.
  now intros [= ->].
Qed.

Lemma open_write_ok (p data : string) (w : world) :
  writable w p = true ->
  exists w',
    open_write p data w = Outcome [Access OpenWrite p] (inr tt) w'
    /\ file_text w' p = Some data.
Proof.
  unfold writable, open_write. intro H.
  destruct (store (cwd w) (components p) 0 EmptyString) as [|n0] eqn:S;
    [discriminate|].
  destruct (store_any_data _ _ _ _ (clock w) data _ S) as [n1 S1].
  rewrite S1. eexists. split; [reflexivity|].
  unfold file_text, lookup_path. simpl. now rewrite (walk_store _ _ _ _ _ S1).
Qed.

Lemma try_except_outcome {A : Type} (run : M A) (ok : response)
  (failed : exn -> response) (w : world) :
  try_except (run ;; ret ok) (fun e => ret (failed e)) w =
  Outcome (events (run w))
    (inr match value (run w) with
         | inr _ => ok
         | inl e => failed e
         end)
    (after (run w)).
Proof.
  unfold try_except, bind, ret.
  destruct (run w) as [ev [e|a] w']; simpl; now rewrite app_nil_r.
Qed.

(** Runs the guard call at the head of a computation, on a literal path. *)
Ltac run_guard :=
  eapply bind_step; [apply enforce_security_ok; reflexivity | | reflexivity].

(** Runs the call at the head of a computation, given its outcome. *)
Ltac run_with H := eapply bind_step; [exact H | | reflexivity].

(** ** The date parser *)

Lemma try_formats_none (ext : externals) (s : string) (formats : list string) :
  try_formats ext s formats = None <->
  Forall (fun fmt => strptime ext s fmt = None) formats.
Proof.
  induction formats as [|fmt rest IH]; simpl.
  - split; [constructor | reflexivity].
  - destruct (strptime ext s fmt) eqn:E.
    + split; [discriminate | intro H; inversion H; congruence].
    + rewrite IH. split; [now constructor | intro H; now inversion H].
Qed.

Lemma try_formats_some (ext : externals) (s : string) (formats : list string)
  (d : datetime) :
  try_formats ext s formats = Some d <->
  exists before fmt rest,
    formats = before ++ fmt :: rest
    /\ Forall (fun f => strptime ext s f = None) before
    /\ strptime ext s fmt = Some d.
Proof.
  induction formats as [|fmt0 rest0 IH]; simpl.
  - split; [discriminate|]. intros (before & fmt & rest & H & _).
    now destruct before.
  - destruct (strptime ext s fmt0) eqn:E.
    + split.
      * intros [= ->]. exists [], fmt0, rest0. repeat split; auto.
      * intros (before & fmt & rest & H & Hb & Hm).
        destruct before as [|b before']; simpl in H; inversion H; subst.
        -- congruence.
        -- inversion Hb; congruence.
    + rewrite IH. split.
      * intros (before & fmt & rest & -> & Hb & Hm).
        exists (fmt0 :: before), fmt, rest. repeat split; auto.
      * intros (before & fmt & rest & H & Hb & Hm).
        destruct before as [|b before']; simpl in H; inversion H; subst.
        -- congruence.
        -- exists before', fmt, rest. inversion Hb; auto.
Qed.

(** C6: on every input the date parser goes through [date_formats] in
    order, on the stripped string; it returns [None] exactly when no format
    matches, and otherwise the result of the first format that matches,
    whatever later formats would have made of the string. *)
Theorem parse_date_first_match (ext : externals) (raw : string) :
  (parse_date ext raw = None <->
   Forall (fun fmt => strptime ext (strip raw) fmt = None) date_formats)
  /\ (forall d,
        parse_date ext raw = Some d <->
        exists before fmt rest,
          date_formats = before ++ fmt :: rest
          /\ Forall (fun f => strptime ext (strip raw) f = None) before
          /\ strptime ext (strip raw) fmt = Some d).
Proof.
  unfold parse_date. split.
  - apply try_formats_none.
  - intro d. apply try_formats_some.
Qed.

(** ** The handlers *)

Lemma task_map_keys (ext : externals) : map fst (task_map ext) = known_tasks.
Proof. reflexivity. Qed.

Lemma output_map_keys : map fst output_map = known_tasks.
Proof. reflexivity. Qed.

Lemma assoc_none {V : Type} (k : string) (l : list (string * V)) :
  ~ In k (map fst l) -> assoc k l = None.
Proof.
  induction l as [|[k' v] r IH]; simpl; [reflexivity|]. intro H.
  destruct (String.eqb_spec k k') as [->|_]; [tauto|]. apply IH. tauto.
Qed.

Lemma assoc_some {V : Type} (k : string) (l : list (string * V)) :
  In k (map fst l) -> exists v, assoc k l = Some v.
Proof.
  induction l as [|[k' v] r IH]; simpl; [tauto|]. intro H.
  destruct (String.eqb_spec k k') as [->|Hne]; [eauto|].
  apply IH. destruct H; [congruence | assumption].
Qed.

(** C7: [run_task] on a name outside the known set raises the 400
    [HTTPException] with no file-system call and the world untouched; on a
    known name it runs the task, returns the success object when the task
    completes and raises the 500 [HTTPException] with the message of the
    exception when the task raises. *)
Theorem run_task_contract (ext : externals) (task : string) (w : world) :
  (~ In task known_tasks ->
   run_task ext task w =
   Outcome [] (inr (HTTPException 400 "Invalid task")) w)
  /\ (In task known_tasks ->
      exists run,
        assoc task (task_map ext) = Some run
        /\ run_task ext task w =
           Outcome (events (run w))
             (inr match value (run w) with
                  | inr _ => Json [("status", "success")]
                  | inl e => HTTPException 500 (str_exn e)
                  end)
             (after (run w))).
Proof.
  split; intro H.
  - unfold run_task. rewrite assoc_none; [reflexivity|].
    now rewrite task_map_keys.
  - rewrite <- (task_map_keys ext) in H.
    destruct (assoc_some _ _ H) as [run Hrun]. exists run. split; [exact Hrun|].
    unfold run_task. rewrite Hrun. apply try_except_outcome.
Qed.

Lemma read_output_file_unbound : ~ In "read_output_file" module_globals.
Proof.
  unfold module_globals. intro H.
  repeat (destruct H as [H|H]; [discriminate H|]). exact H.
Qed.

Lemma get_task_output_unknown (task : string) (w : world) :
  ~ In task known_tasks ->
  get_task_output task w = Outcome [] (inr (HTTPException 400 "Invalid task")) w.
Proof.
  intro H. unfold get_task_output, get_task_output_with.
  rewrite assoc_none; [reflexivity|]. now rewrite output_map_keys.
Qed.

(** On every known name [get_task_output] ends in the 500 [HTTPException]
    of the [NameError], whatever the output file holds. *)
Lemma get_task_output_known (task : string) (w : world) :
  In task known_tasks ->
  get_task_output task w =
  Outcome [] (inr (HTTPException 500 "name 'read_output_file' is not defined")) w.
Proof.
  intro H. rewrite <- output_map_keys in H.
  destruct (assoc_some _ _ H) as [name Hname].
  unfold get_task_output, get_task_output_with. now rewrite Hname.
Qed.

(** With the reader of the spec bound to the name, the handler would return
    the text of the task's output file, and raise the 500 [HTTPException]
    when there is no such file. *)
Lemma get_task_output_with_reader (task name : string) (w : world) :
  assoc task output_map = Some name ->
  (forall text,
     file_text w (os_path_join DATA_DIR name) = Some text ->
     value (get_task_output_with (Some read_output_file_spec) task w) =
     inr (Json [("output", universal_newlines text)]))
  /\ (file_text w (os_path_join DATA_DIR name) = None ->
      exists detail,
        value (get_task_output_with (Some read_output_file_spec) task w) =
        inr (HTTPException 500 detail)).
Proof.
  intro Hname. unfold get_task_output_with. rewrite Hname.
  unfold try_except, call_global, read_output_file_spec, bind. split.
  - intros text Htext. now rewrite (open_read_file _ _ _ Htext).
  - unfold file_text, open_read, bind, read_node. cbn [events value after].
    destruct (lookup_path w (os_path_join DATA_DIR name)) as [[|]| |];
      try discriminate; intros _; eexists; reflexivity.
Qed.

(** C1: [get_task_output "count_wednesdays"] on a data directory whose
    [dates-wednesdays.txt] holds one line: the handler raises the 500
    [HTTPException] of a [NameError] and reads nothing. *)
Theorem get_task_output_name_error :
  file_text sample_world "data/dates-wednesdays.txt" = Some ("2" ++ NL)%string
  /\ get_task_output "count_wednesdays" sample_world =
     Outcome []
       (inr (HTTPException 500 "name 'read_output_file' is not defined"))
       sample_world.
Proof. split; reflexivity. Qed.

(** ** [similar_comments] *)

(** C8: when the comments file holds fewer than two lines that are not
    blank, [similar_comments] returns after reading it: there is no write,
    the world is the one it started from, and [run_task] reports success. *)
Theorem similar_comments_skips (ext : externals) (w : world) (text : string) :
  file_text w "data/comments.txt" = Some text ->
  (List.length
     (filter (fun line => truthy (strip line))
        (readlines (universal_newlines text))) < 2)%nat ->
  similar_comments ext w =
  Outcome
    [Guard "data/comments.txt"; Guard "data/comments-similar.txt";
     Access OpenRead "data/comments.txt"]
    (inr tt) w
  /\ run_task ext "similar_comments" w =
     Outcome
       [Guard "data/comments.txt"; Guard "data/comments-similar.txt";
        Access OpenRead "data/comments.txt"]
       (inr (Json [("status", "success")])) w.
Proof.
  intros Htext Hfew.
  assert (Hrun : similar_comments ext w =
                 Outcome
                   [Guard "data/comments.txt"; Guard "data/comments-similar.txt";
                    Access OpenRead "data/comments.txt"]
                   (inr tt) w).
  { unfold similar_comments.
    change (os_path_join DATA_DIR "comments.txt") with "data/comments.txt".
    change (os_path_join DATA_DIR "comments-similar.txt")
      with "data/comments-similar.txt".
    cbv zeta. do 2 run_guard. run_with (open_read_file _ _ _ Htext).
    rewrite length_map. apply Nat.ltb_lt in Hfew. rewrite Hfew. reflexivity. }
  split; [exact Hrun|].
  change (run_task ext "similar_comments" w)
    with (try_except (similar_comments ext ;; ret (Json [("status", "success")]))
            (fun e => ret (HTTPException 500 (str_exn e))) w).
  rewrite try_except_outcome, Hrun. reflexivity.
Qed.

Lemma exists_found (p : string) (w : world) (n : node) :
  lookup_path w p = Found n ->
  os_path_exists p w = Outcome [Access Exists p] (inr true) w.
Proof. intro H. unfold os_path_exists. now rewrite H. Qed.

Lemma exists_absent (p : string) (w : world) :
  (forall n, lookup_path w p <> Found n) ->
  os_path_exists p w = Outcome [Access Exists p] (inr false) w.
Proof.
  intro H. unfold os_path_exists.
  destruct (lookup_path w p) as [n| |]; [now elim (H n) | reflexivity..].
Qed.

Lemma file_text_found (p : string) (w : world) (d : string) :
  file_text w p = Some d -> exists t, lookup_path w p = Found (File t d).
Proof.
  unfold file_text. destruct (lookup_path w p) as [[t d'|]| |]; try discriminate.
  intros [= ->]. now exists t.
Qed.


(** ** [count_wednesdays] *)




(** ** [total_gold_sales] *)














(** ** The order on strings and on name pairs *)

Lemma ascii_compare_refl (c : ascii) : Ascii.compare c c = Eq.
Proof. unfold Ascii.compare. apply N.compare_refl. Qed.

Lemma ascii_compare_lt_trans (a b c : ascii) :
  Ascii.compare a b = Lt -> Ascii.compare b c = Lt -> Ascii.compare a c = Lt.
Proof.
  unfold Ascii.compare. rewrite !N.compare_lt_iff. apply N.lt_trans.
Qed.

Lemma string_compare_refl (s : string) : String.compare s s = Eq.
Proof.
  induction s as [|c r IH]; [reflexivity|]. simpl.
  now rewrite ascii_compare_refl.
Qed.

Lemma string_compare_lt_trans (a : string) :
  forall b c,
    String.compare a b = Lt -> String.compare b c = Lt ->
    String.compare a c = Lt.
Proof.
  induction a as [|x a IH]; intros [|y b] [|z c]; simpl; try discriminate; auto.
  destruct (Ascii.compare x y) eqn:Exy; try discriminate;
    destruct (Ascii.compare y z) eqn:Eyz; try discriminate; intros Hab Hbc.
  - apply Ascii.compare_eq_iff in Exy, Eyz. subst.
    rewrite ascii_compare_refl. eauto.
  - apply Ascii.compare_eq_iff in Exy. subst. now rewrite Eyz.
  - apply Ascii.compare_eq_iff in Eyz. subst. now rewrite Exy.
  - now rewrite (ascii_compare_lt_trans _ _ _ Exy Eyz).
Qed.

Lemma str_lt_irrefl (a : string) : str_lt a a = false.
Proof. unfold str_lt, String.ltb. now rewrite string_compare_refl. Qed.

Lemma str_lt_asym (a b : string) : str_lt a b = true -> str_lt b a = false.
Proof.
  unfold str_lt, String.ltb. rewrite (String.compare_antisym a b).
  now destruct (String.compare b a).
Qed.

Lemma str_lt_trans (a b c : string) :
  str_lt a b = true -> str_lt b c = true -> str_lt a c = true.
Proof.
  unfold str_lt, String.ltb. intros Hab Hbc.
  destruct (String.compare a b) eqn:Eab; try discriminate.
  destruct (String.compare b c) eqn:Ebc; try discriminate.
  now rewrite (string_compare_lt_trans _ _ _ Eab Ebc).
Qed.

Lemma str_lt_total (a b : string) :
  str_lt a b = false -> str_lt b a = false -> a = b.
Proof.
  unfold str_lt, String.ltb. rewrite (String.compare_antisym a b).
  destruct (String.compare b a) eqn:E; try discriminate.
  intros _ _. apply String.compare_eq_iff.
  rewrite String.compare_antisym, E. reflexivity.
Qed.

Lemma leb_not_lt (a b : string) : String.leb a b = negb (str_lt b a).
Proof.
  unfold str_lt, String.leb, String.ltb. rewrite (String.compare_antisym a b).
  now destruct (String.compare b a).
Qed.

(** [tuple_lt] is the strict part of the lexicographic order [names_le]. *)
Lemma tuple_lt_false (a b : string * string) :
  tuple_lt b a = false <-> names_le a b.
Proof.
  destruct a as [a1 a2], b as [b1 b2]. unfold tuple_lt, names_le. simpl.
  rewrite leb_not_lt. fold (str_lt a1 b1).
  destruct (String.eqb_spec b1 a1) as [->|Hne].
  - rewrite str_lt_irrefl. split.
    + intros ->. right. auto.
    + intros [H|[_ H]]; [discriminate|]. now destruct (str_lt b2 a2).
  - split.
    + intro H. left. destruct (str_lt a1 b1) eqn:E; [reflexivity|].
      elim Hne. now apply str_lt_total.
    + intros [H|[H _]]; [now apply str_lt_asym | congruence].
Qed.

Lemma names_le_trans (a b c : string * string) :
  names_le a b -> names_le b c -> names_le a c.
Proof.
  destruct a as [a1 a2], b as [b1 b2], c as [c1 c2]. unfold names_le. simpl.
  rewrite !leb_not_lt. fold (str_lt a1 b1) (str_lt b1 c1) (str_lt a1 c1).
  intros [H1|[-> H1]] [H2|[-> H2]].
  - left. eapply str_lt_trans; eauto.
  - now left.
  - now left.
  - right. split; [reflexivity|].
    destruct (str_lt c2 a2) eqn:E; [|reflexivity].
    destruct (str_lt b2 a2) eqn:E1; [discriminate|].
    destruct (str_lt c2 b2) eqn:E2; [discriminate|].
    destruct (str_lt a2 b2) eqn:E3.
    + now rewrite (str_lt_trans _ _ _ E E3) in E2.
    + rewrite (str_lt_total _ _ E3 E1) in E. congruence.
Qed.

Lemma tuple_lt_asym (a b : string * string) :
  tuple_lt a b = true -> tuple_lt b a = false.
Proof.
  destruct a as [a1 a2], b as [b1 b2]. unfold tuple_lt. simpl.
  rewrite (String.eqb_sym b1 a1).
  destruct (String.eqb a1 b1); apply str_lt_asym.
Qed.

Lemma tuple_lt_le_trans (a b c : string * string) :
  tuple_lt b a = false -> tuple_lt c b = false -> tuple_lt c a = false.
Proof. rewrite !tuple_lt_false. apply names_le_trans. Qed.

Lemma tuple_lt_irrefl (a : string * string) : tuple_lt a a = false.
Proof.
  destruct a as [a1 a2]. unfold tuple_lt. simpl.
  rewrite String.eqb_refl. apply str_lt_irrefl.
Qed.

(** ** [sorted] *)

Section SortedFacts.
Context {A K : Type}.
Variable lt : K -> K -> bool.
Variable key : A -> K.
Hypothesis lt_asym : forall a b, lt a b = true -> lt b a = false.
Hypothesis le_trans :
  forall a b c, lt b a = false -> lt c b = false -> lt c a = false.

(** [x] comes at or before [y] in ascending order. *)
Let ascending (x y : A) : Prop := lt (key y) (key x) = false.
Let descending (x y : A) : Prop := lt (key x) (key y) = false.

Lemma insert_sorted_perm (x : A) (l : list A) :
  Permutation (x :: l) (insert_sorted lt key x l).
Proof.
  induction l as [|y r IH]; simpl; [reflexivity|].
  destruct (lt (key y) (key x)); [|reflexivity].
  rewrite perm_swap. now constructor.
Qed.

Lemma stable_sort_perm (l : list A) : Permutation l (stable_sort lt key l).
Proof.
  induction l as [|x r IH]; simpl; [constructor|].
  rewrite <- insert_sorted_perm. now constructor.
Qed.

Lemma insert_sorted_ascending (x : A) (l : list A) :
  StronglySorted ascending l ->
  StronglySorted ascending (insert_sorted lt key x l).
Proof.
  induction 1 as [|y r Hr IH Hy]; simpl.
  - repeat constructor.
  - destruct (lt (key y) (key x)) eqn:E.
    + constructor; [exact IH|].
      rewrite <- insert_sorted_perm. constructor; [|exact Hy].
      unfold ascending. now apply lt_asym.
    + constructor; [now constructor|]. constructor; [exact E|].
      eapply Forall_impl; [|exact Hy]. intros z Hz. unfold ascending in *.
      eapply le_trans; eauto.
Qed.

Lemma stable_sort_ascending (l : list A) :
  StronglySorted ascending (stable_sort lt key l).
Proof.
  induction l as [|x r IH]; simpl; [constructor|].
  now apply insert_sorted_ascending.
Qed.

(** Stability: a selection of items whose keys do not precede one another
    keeps its order. *)
Section Stable.
Variable sel : A -> bool.
Hypothesis sel_ties :
  forall a b, sel a = true -> sel b = true -> lt (key a) (key b) = false.

Lemma insert_sorted_filter (x : A) (l : list A) :
  filter sel (insert_sorted lt key x l) = filter sel (x :: l).
Proof.
  induction l as [|y r IH]; [reflexivity|]. cbn [insert_sorted].
  destruct (lt (key y) (key x)) eqn:E; [|reflexivity].
  cbn [filter] in *. rewrite IH.
  destruct (sel x) eqn:Ex; [|reflexivity].
  destruct (sel y) eqn:Ey; [|reflexivity].
  rewrite (sel_ties y x Ey Ex) in E. discriminate.
Qed.

Lemma stable_sort_filter (l : list A) :
  filter sel (stable_sort lt key l) = filter sel l.
Proof.
  induction l as [|x r IH]; [reflexivity|]. cbn [stable_sort].
  rewrite insert_sorted_filter. cbn [filter]. now rewrite IH.
Qed.

Lemma py_sorted_stable (reverse : bool) (l : list A) :
  filter sel (py_sorted lt key reverse l) = filter sel l.
Proof.
  unfold py_sorted. destruct reverse; [|apply stable_sort_filter].
  now rewrite filter_rev, stable_sort_filter, filter_rev, rev_involutive.
Qed.

End Stable.

Lemma py_sorted_perm (reverse : bool) (l : list A) :
  Permutation l (py_sorted lt key reverse l).
Proof.
  unfold py_sorted. destruct reverse; [|apply stable_sort_perm].
  rewrite <- Permutation_rev, <- stable_sort_perm. apply Permutation_rev.
Qed.

Lemma py_sorted_ascending (l : list A) :
  StronglySorted ascending (py_sorted lt key false l).
Proof. apply stable_sort_ascending. Qed.

Lemma sorted_snoc (R : A -> A -> Prop) (l : list A) (x : A) :
  StronglySorted R l -> Forall (fun y => R y x) l ->
  StronglySorted R (l ++ [x]).
Proof.
  induction 1 as [|y r Hr IH Hy]; intro H; simpl.
  - repeat constructor.
  - inversion H; subst. constructor; [now apply IH|].
    apply Forall_app. split; [exact Hy | now constructor].
Qed.

Lemma py_sorted_descending (l : list A) :
  StronglySorted descending (py_sorted lt key true l).
Proof.
  unfold py_sorted.
  generalize (stable_sort_ascending (rev l)).
  generalize (stable_sort lt key (rev l)). clear l.
  induction 1 as [|y r Hr IH Hy]; simpl; [constructor|].
  apply sorted_snoc; [exact IH|].
  apply Forall_rev. exact Hy.
Qed.

End SortedFacts.

(** Sorting decorated items is sorting the items. *)
Lemma insert_sorted_map {A B K : Type} (lt : K -> K -> bool) (key : B -> K)
  (g : A -> B) (x : A) (l : list A) :
  insert_sorted lt key (g x) (map g l) =
  map g (insert_sorted lt (fun a => key (g a)) x l).
Proof.
  induction l as [|y r IH]; [reflexivity|]. simpl.
  destruct (lt (key (g y)) (key (g x))); [|reflexivity].
  simpl. now rewrite IH.
Qed.

Lemma py_sorted_map {A B K : Type} (lt : K -> K -> bool) (key : B -> K)
  (g : A -> B) (reverse : bool) (l : list A) :
  py_sorted lt key reverse (map g l) =
  map g (py_sorted lt (fun a => key (g a)) reverse l).
Proof.
  assert (H : forall l, stable_sort lt key (map g l) =
                        map g (stable_sort lt (fun a => key (g a)) l)).
  { clear l. induction l as [|x r IH]; [reflexivity|]. simpl.
    now rewrite IH, insert_sorted_map. }
  unfold py_sorted. destruct reverse; [|apply H].
  now rewrite <- map_rev, H, map_rev.
Qed.

Lemma sorted_impl {A : Type} (R R' : A -> A -> Prop) (l : list A) :
  (forall x y, R x y -> R' x y) -> StronglySorted R l -> StronglySorted R' l.
Proof.
  intro H. induction 1 as [|x r Hr IH Hx]; constructor; [exact IH|].
  eapply Forall_impl; [|exact Hx]. intros y. apply H.
Qed.

(** A loop whose body leaves the world as it is. *)
Lemma for_each_reads {A B : Type} (items : list A) (body : A -> M B)
  (w : world) (ev : A -> list event) (f : A -> B) :
  (forall x, In x items -> body x w = Outcome (ev x) (inr (f x)) w) ->
  for_each items body w = Outcome (flat_map ev items) (inr (map f items)) w.
Proof.
  induction items as [|x r IH]; intro H; [reflexivity|]. cbn [for_each].
  eapply bind_step; [apply H; now left | | reflexivity].
  eapply bind_step; [apply IH; intros y Hy; apply H; now right | | ].
  - reflexivity.
  - now rewrite app_nil_r.
Qed.

Lemma for_each_pure {A B : Type} (items : list A) (body : A -> M B)
  (w : world) (f : A -> B) :
  (forall x, In x items -> body x w = Outcome [] (inr (f x)) w) ->
  for_each items body w = Outcome [] (inr (map f items)) w.
Proof.
  intro H. rewrite (for_each_reads items body w (fun _ => []) f H).
  f_equal. clear. induction items; simpl; auto.
Qed.

(** ** [sort_contacts] *)

Lemma contact_key_names (x : contact) (w : world) :
  is_contact x = true ->
  (k <- contact_key x ;; ret (k, x)) w = Outcome [] (inr (names_of x, x)) w.
Proof.
  unfold is_contact, contact_key, names_of, bind.
  destruct (assoc "last_name" x); [|discriminate].
  destruct (assoc "first_name" x); [|discriminate]. reflexivity.
Qed.

Lemma same_names_ties (k : string * string) (a b : contact) :
  same_names k a = true -> same_names k b = true ->
  tuple_lt (names_of a) (names_of b) = false.
Proof.
  unfold same_names. intros Ha Hb.
  apply andb_true_iff in Ha, Hb. destruct Ha as [Ha1 Ha2], Hb as [Hb1 Hb2].
  apply String.eqb_eq in Ha1, Ha2, Hb1, Hb2.
  replace (names_of b) with (names_of a).
  - apply tuple_lt_irrefl.
  - destruct (names_of a), (names_of b). simpl in *. congruence.
Qed.

(** C4: on a contacts file that holds an array of contacts, and with a
    writable output path, [sort_contacts] writes an array that is a
    permutation of the input, in non-decreasing order of (last_name,
    first_name), in which contacts of equal names keep the order they had in
    the input. *)
Theorem sort_contacts_spec (ext : externals) (w : world) (text : string)
  (contacts : list contact) :
  file_text w "data/contacts.json" = Some text ->
  json_load ext (universal_newlines text) = inr contacts ->
  forallb is_contact contacts = true ->
  writable w "data/contacts-sorted.json" = true ->
  exists sorted_contacts w',
    sort_contacts ext w =
    Outcome
      [Guard "data/contacts.json"; Guard "data/contacts-sorted.json";
       Access OpenRead "data/contacts.json";
       Access OpenWrite "data/contacts-sorted.json"]
      (inr tt) w'
    /\ file_text w' "data/contacts-sorted.json" =
       Some (json_dump_contacts ext sorted_contacts)
    /\ Permutation contacts sorted_contacts
    /\ StronglySorted (fun x y => names_le (names_of x) (names_of y))
         sorted_contacts
    /\ forall k,
         filter (same_names k) sorted_contacts = filter (same_names k) contacts.
Proof.
  intros Htext Hload Hcontacts Hout.
  set (sorted_contacts := py_sorted tuple_lt names_of false contacts).
  destruct (open_write_ok "data/contacts-sorted.json"
              (json_dump_contacts ext sorted_contacts) w Hout)
    as (w' & Hwrite & Hread).
  exists sorted_contacts, w'. repeat split.
  - unfold sort_contacts.
    change (os_path_join DATA_DIR "contacts.json") with "data/contacts.json".
    change (os_path_join DATA_DIR "contacts-sorted.json")
      with "data/contacts-sorted.json".
    cbv zeta. do 2 run_guard. run_with (open_read_file _ _ _ Htext).
    rewrite Hload. eapply bind_step; [reflexivity | | reflexivity].
    assert (Hkeys : for_each contacts (fun x => k <- contact_key x ;; ret (k, x)) w
                    = Outcome [] (inr (map (fun x => (names_of x, x)) contacts)) w).
    { apply for_each_pure. intros x Hx. apply contact_key_names.
      rewrite forallb_forall in Hcontacts. now apply Hcontacts. }
    run_with Hkeys.
    rewrite py_sorted_map, map_map. cbn [snd fst]. rewrite map_id.
    exact Hwrite.
  - exact Hread.
  - apply py_sorted_perm.
  - eapply sorted_impl; [|apply (py_sorted_ascending tuple_lt names_of)].
    + intros x y. apply tuple_lt_false.
    + apply tuple_lt_asym.
    + apply tuple_lt_le_trans.
  - intro k. apply py_sorted_stable. apply same_names_ties.
Qed.

(** Four sample contacts, two of them with the same names. *)
Lemma sort_contacts_spec_witness :
  exists sorted_contacts w',
    sort_contacts sample_ext sample_world =
    Outcome
      [Guard "data/contacts.json"; Guard "data/contacts-sorted.json";
       Access OpenRead "data/contacts.json";
       Access OpenWrite "data/contacts-sorted.json"]
      (inr tt) w'
    /\ file_text w' "data/contacts-sorted.json" =
       Some (json_dump_contacts sample_ext sorted_contacts)
    /\ Permutation sample_contacts sorted_contacts
    /\ StronglySorted (fun x y => names_le (names_of x) (names_of y))
         sorted_contacts
    /\ forall k,
         filter (same_names k) sorted_contacts =
         filter (same_names k) sample_contacts.
Proof.
  exact (sort_contacts_spec sample_ext sample_world "contacts" sample_contacts
           eq_refl eq_refl eq_refl eq_refl).
Defined.

(** ** Paths into a listed directory *)

Lemma rev_string_onto_twice (s : string) :
  forall acc acc',
    rev_string_onto (rev_string_onto s acc) acc' =
    rev_string_onto acc (s ++ acc')%string.
Proof.
  induction s as [|c r IH]; intros acc acc'; [reflexivity|].
  cbn [rev_string_onto]. now rewrite IH.
Qed.

Lemma append_empty_r (s : string) : (s ++ "")%string = s.
Proof. induction s as [|c r IH]; [reflexivity|]. simpl. now rewrite IH. Qed.

Lemma rev_string_involutive (s : string) : rev_string (rev_string s) = s.
Proof.
  unfold rev_string. rewrite rev_string_onto_twice. simpl.
  apply append_empty_r.
Qed.

Lemma components_from_plain (name : string) :
  forall cur,
    has_slash name = false ->
    components_from cur name =
    match rev_string_onto name cur with
    | EmptyString => []
    | s => [rev_string s]
    end.
Proof.
  induction name as [|c r IH]; intros cur H; [now destruct cur|].
  cbn [has_slash] in H. apply orb_false_iff in H. destruct H as [Hc Hr].
  cbn [components_from rev_string_onto]. rewrite Hc. now apply IH.
Qed.

Lemma components_of_name (name : string) :
  valid_name name = true -> components name = [name].
Proof.
  unfold valid_name. intro H. apply andb_true_iff in H. destruct H as [Hne Hs].
  apply negb_true_iff in Hs.
  unfold components. rewrite (components_from_plain _ _ Hs).
  fold (rev_string name).
  destruct (rev_string name) eqn:E.
  - rewrite <- (rev_string_involutive name), E in Hne. discriminate.
  - now rewrite <- E, rev_string_involutive.
Qed.

Lemma valid_name_no_root (name : string) :
  valid_name name = true -> startswith name "/" = false.
Proof.
  unfold valid_name, startswith. destruct name as [|c r]; [discriminate|].
  cbn [truthy has_slash String.prefix andb]. intro H.
  apply negb_true_iff, orb_false_iff in H. destruct H as [Hc _].
  destruct (ascii_dec "/" c) as [<-|Hne]; [discriminate|reflexivity].
Qed.

Lemma logs_path (name : string) :
  valid_name name = true ->
  os_path_join "data/logs" name = ("data/logs/" ++ name)%string
  /\ components ("data/logs/" ++ name) = ["data"; "logs"; name].
Proof.
  intro H. split.
  - unfold os_path_join. now rewrite (valid_name_no_root _ H).
  - pose proof (components_of_name _ H) as Hc. unfold components in *.
    cbn. exact (f_equal (fun l => "data" :: "logs" :: l) Hc).
Qed.

Lemma docs_path (name : string) :
  valid_name name = true ->
  os_path_join "data/docs" name = ("data/docs/" ++ name)%string.
Proof.
  intro H. unfold os_path_join. now rewrite (valid_name_no_root _ H).
Qed.

Lemma valid_node_dir (m : Z) (es : list (string * node)) :
  valid_node (Dir m es) =
  distinct (map fst es)
  && forallb (fun e => valid_name (fst e) && valid_node (snd e)) es.
Proof. reflexivity. Qed.

Lemma walk_valid (comps : list string) :
  forall n n',
    valid_node n = true -> walk n comps = Found n' -> valid_node n' = true.
Proof.
  induction comps as [|c cs IH]; intros n n' Hn Hw; cbn [walk] in Hw.
  - now inversion Hw; subst.
  - destruct n as [|m es]; [discriminate|].
    destruct (assoc c es) as [n1|] eqn:E; [|discriminate].
    rewrite valid_node_dir in Hn. apply andb_true_iff in Hn.
    destruct Hn as [_ Hall]. rewrite forallb_forall in Hall.
    specialize (Hall _ (assoc_in _ _ _ E)). apply andb_true_iff in Hall.
    eapply IH; [apply Hall | exact Hw].
Qed.

Lemma listed_names_valid (w : world) (path : string) (m : Z)
  (es : list (string * node)) :
  valid_world w = true ->
  lookup_path w path = Found (Dir m es) ->
  distinct (map fst es) = true
  /\ forall e, In e es -> valid_name (fst e) = true.
Proof.
  intros Hw Hdir. pose proof (walk_valid _ _ _ Hw Hdir) as H.
  rewrite valid_node_dir in H. apply andb_true_iff in H.
  destruct H as [Hd Hall]. split; [exact Hd|].
  intros e He. rewrite forallb_forall in Hall.
  specialize (Hall e He). now apply andb_true_iff in Hall.
Qed.

Lemma assoc_distinct (es : list (string * node)) (e : string * node) :
  distinct (map fst es) = true -> In e es -> assoc (fst e) es = Some (snd e).
Proof.
  induction es as [|[k v] r IH]; intros Hd He; [contradiction|].
  cbn [map fst distinct] in Hd. apply andb_true_iff in Hd.
  destruct Hd as [Hk Hr]. apply negb_true_iff in Hk. cbn [assoc].
  destruct He as [<-|He].
  - cbn [fst snd]. now rewrite String.eqb_refl.
  - destruct (String.eqb_spec (fst e) k) as [E|_]; [|now apply IH].
    assert (Hin : existsb (String.eqb k) (map fst r) = true).
    { apply existsb_exists. exists (fst e). split.
      - now apply in_map.
      - subst k. apply String.eqb_refl. }
    congruence.
Qed.

(** The node a listed entry's path leads to. *)
Lemma logs_entry_lookup (w : world) (m : Z) (es : list (string * node))
  (e : string * node) :
  valid_world w = true ->
  lookup_path w "data/logs" = Found (Dir m es) ->
  In e es ->
  lookup_path w ("data/logs/" ++ fst e) = Found (snd e).
Proof.
  intros Hw Hdir He.
  destruct (listed_names_valid _ _ _ _ Hw Hdir) as [Hd Hnames].
  destruct (logs_path _ (Hnames e He)) as [_ Hc].
  unfold lookup_path in *. rewrite Hc.
  change ["data"; "logs"; fst e] with (["data"; "logs"] ++ [fst e]).
  rewrite walk_app.
  change (components "data/logs") with ["data"; "logs"] in Hdir.
  rewrite Hdir. cbn [walk]. now rewrite (assoc_distinct es e Hd He).
Qed.

Lemma for_each_map {A B C : Type} (g : A -> B) (body : B -> M C)
  (items : list A) :
  forall w, for_each (map g items) body w = for_each items (fun x => body (g x)) w.
Proof.
  induction items as [|x r IH]; intro w; [reflexivity|].
  cbn [map for_each]. unfold bind.
  destruct (body (g x) w) as [ev [e|y] w1]; cbn [value after events];
    [reflexivity|].
  now rewrite IH.
Qed.

Lemma sorted_app_inv {A : Type} (R : A -> A -> Prop) (l1 l2 : list A) :
  StronglySorted R (l1 ++ l2) ->
  forall a b, In a l1 -> In b l2 -> R a b.
Proof.
  induction l1 as [|x r IH]; intros H a b Ha Hb; [contradiction|].
  cbn [app] in H. apply StronglySorted_inv in H. destruct H as [Hr Hx].
  destruct Ha as [<-|Ha].
  - rewrite Forall_forall in Hx. apply Hx, in_or_app. now right.
  - now apply IH.
Qed.

Lemma in_firstn {A : Type} (n : nat) (l : list A) (x : A) :
  In x (firstn n l) -> In x l.
Proof.
  intro H. rewrite <- (firstn_skipn n l). apply in_or_app. now left.
Qed.

(** ** Lines of the text [recent_logs] writes *)

Lemma append_assoc (a b c : string) : ((a ++ b) ++ c = a ++ (b ++ c))%string.
Proof. induction a as [|x a IH]; [reflexivity|]. simpl. now rewrite IH. Qed.

(** Reading on from a piece without line feed. *)
Lemma lines_from_plain (l : string) :
  forall cur rest,
    has_lf l = false ->
    lines_from cur (l ++ rest) = lines_from (rev_string_onto l cur) rest.
Proof.
  induction l as [|c r IH]; intros cur rest H; [reflexivity|].
  cbn [has_lf] in H. apply orb_false_iff in H. destruct H as [Hc Hr].
  cbn [append lines_from rev_string_onto]. rewrite Hc. now apply IH.
Qed.

Lemma readlines_line (l rest : string) :
  has_lf l = false ->
  readlines (l ++ NL ++ rest) = (l ++ NL)%string :: readlines rest.
Proof.
  intro H. unfold readlines. rewrite (lines_from_plain _ _ _ H).
  cbn [NL append lines_from]. change (Ascii.eqb LF LF) with true. cbv iota.
  f_equal. unfold rev_string. cbn [rev_string_onto].
  change (rev_string_onto (rev_string_onto l "") (String LF ""))
    with (rev_string_onto (rev_string_onto l "") NL).
  now rewrite rev_string_onto_twice.
Qed.

Lemma readlines_joined (ls : list string) :
  ls <> [] ->
  Forall (fun l => has_lf l = false) ls ->
  readlines (join NL ls ++ NL) = map (fun l => (l ++ NL)%string) ls.
Proof.
  intros Hne H. induction H as [|l r Hl Hr IH]; [congruence|]. clear Hne.
  destruct r as [|l2 r].
  - cbn [join String.concat map].
    rewrite <- (append_empty_r (l ++ NL)) at 1. rewrite append_assoc.
    now rewrite (readlines_line l "" Hl).
  - change (join NL (l :: l2 :: r)) with (l ++ NL ++ join NL (l2 :: r))%string.
    rewrite !append_assoc. rewrite (readlines_line _ _ Hl).
    cbn [map]. f_equal. apply IH. discriminate.
Qed.

Lemma rev_string_onto_append (s : string) :
  forall acc, rev_string_onto s acc = (rev_string s ++ acc)%string.
Proof.
  unfold rev_string. induction s as [|c r IH]; intro acc; [reflexivity|].
  cbn [rev_string_onto]. rewrite IH, (IH (String c "")), append_assoc.
  reflexivity.
Qed.

Lemma has_lf_append (a b : string) :
  has_lf (a ++ b) = has_lf a || has_lf b.
Proof.
  induction a as [|c r IH]; [reflexivity|]. cbn [append has_lf].
  now rewrite IH, orb_assoc.
Qed.

Lemma has_lf_rev_string (s : string) : has_lf (rev_string s) = has_lf s.
Proof.
  induction s as [|c r IH]; [reflexivity|].
  unfold rev_string at 1. cbn [rev_string_onto].
  rewrite rev_string_onto_append, has_lf_append, IH. cbn [has_lf].
  now rewrite orb_false_r, orb_comm.
Qed.

Lemma lf_only_last_plain (s : string) :
  has_lf s = false -> lf_only_last s = true.
Proof.
  induction s as [|c r IH]; [reflexivity|]. cbn [has_lf lf_only_last].
  intro H. apply orb_false_iff in H. destruct H as [Hc Hr].
  destruct r; [reflexivity|]. rewrite Hc. now apply IH.
Qed.

Lemma lf_only_last_line (s : string) :
  has_lf s = false -> lf_only_last (s ++ NL) = true.
Proof.
  induction s as [|c r IH]; [reflexivity|]. cbn [has_lf]. intro H.
  apply orb_false_iff in H. destruct H as [Hc Hr].
  cbn [append lf_only_last]. rewrite Hc, (IH Hr).
  now destruct (r ++ NL)%string.
Qed.

Lemma first_of_lines (t : string) :
  forall cur,
    has_lf cur = false ->
    match lines_from cur t with
    | [] => True
    | l :: _ => lf_only_last l = true
    end.
Proof.
  induction t as [|c r IH]; intros cur H; cbn [lines_from].
  - destruct cur; [exact I|]. apply lf_only_last_plain.
    now rewrite has_lf_rev_string.
  - destruct (Ascii.eqb c LF) eqn:E.
    + apply Ascii.eqb_eq in E. subst c. unfold rev_string.
      cbn [rev_string_onto]. rewrite rev_string_onto_append.
      apply lf_only_last_line. now rewrite has_lf_rev_string.
    + apply IH. cbn [has_lf]. now rewrite E.
Qed.

Lemma lf_only_last_readline (t : string) : lf_only_last (readline t) = true.
Proof.
  unfold readline, readlines. pose proof (first_of_lines t "" eq_refl) as H.
  now destruct (lines_from "" t).
Qed.

Lemma lf_only_last_tail (c : ascii) (r : string) :
  lf_only_last (String c r) = true -> lf_only_last r = true.
Proof.
  cbn [lf_only_last]. destruct r; [reflexivity|]. intro H.
  now apply andb_true_iff in H.
Qed.

Lemma lf_only_last_lstrip (s : string) :
  lf_only_last s = true -> lf_only_last (lstrip s) = true.
Proof.
  induction s as [|c r IH]; [reflexivity|]. intro H. cbn [lstrip].
  destruct (isspace c); [|exact H]. apply IH. now apply lf_only_last_tail in H.
Qed.

Lemma no_lf_rstrip (s : string) :
  lf_only_last s = true -> has_lf (rstrip s) = false.
Proof.
  induction s as [|c r IH]; [reflexivity|]. intro H.
  pose proof (IH (lf_only_last_tail _ _ H)) as Hr. cbn [rstrip].
  destruct (rstrip r) as [|c' r'] eqn:E.
  - destruct (isspace c) eqn:Es; [reflexivity|]. cbn [has_lf].
    destruct (Ascii.eqb_spec c LF) as [->|_]; [discriminate Es | reflexivity].
  - cbn [has_lf] in *. rewrite Hr, orb_false_r.
    destruct r as [|c2 r2]; [discriminate E|].
    cbn [lf_only_last] in H. apply andb_true_iff in H.
    destruct H as [H _]. now apply negb_true_iff in H.
Qed.

(** The line [recent_logs] takes from a file holds no line feed. *)
Lemma first_line_plain (e : string * node) : has_lf (first_line e) = false.
Proof.
  unfold first_line, strip.
  apply no_lf_rstrip, lf_only_last_lstrip, lf_only_last_readline.
Qed.

(** ** [recent_logs] *)

Lemma listdir_dir (p : string) (w : world) (m : Z) (es : list (string * node)) :
  lookup_path w p = Found (Dir m es) ->
  os_listdir p w = Outcome [Access Listdir p] (inr (map fst es)) w.
Proof. intro H. unfold os_listdir. now rewrite H. Qed.

Lemma getmtime_found (p : string) (w : world) (n : node) :
  lookup_path w p = Found n ->
  (t <- os_path_getmtime p ;; ret (t, p)) w =
  Outcome [Access Getmtime p] (inr (node_mtime n, p)) w.
Proof. intro H. unfold bind, os_path_getmtime. now rewrite H. Qed.

Lemma read_first_line (p : string) (w : world) (t : Z) (d : string) :
  startswith p DATA_DIR = true ->
  lookup_path w p = Found (File t d) ->
  (enforce_security p ;;
   text <- open_read p ;;
   ret (strip (readline text))) w =
  Outcome [Guard p; Access OpenRead p]
    (inr (strip (readline (universal_newlines d)))) w.
Proof.
  intros Hp Hf.
  eapply bind_step; [now apply enforce_security_ok | | reflexivity].
  eapply bind_step; [apply open_read_file | reflexivity | reflexivity].
  unfold file_text. now rewrite Hf.
Qed.

Lemma log_paths (w : world) (m : Z) (es : list (string * node)) :
  valid_world w = true ->
  lookup_path w "data/logs" = Found (Dir m es) ->
  map (os_path_join "data/logs")
    (filter (fun f => endswith f ".log") (map fst es)) =
  map (fun e => ("data/logs/" ++ fst e)%string) (log_entries es).
Proof.
  intros Hw Hdir. destruct (listed_names_valid _ _ _ _ Hw Hdir) as [_ Hnames].
  rewrite filter_map_swap, map_map. apply map_ext_in.
  intros e He. apply logs_path, Hnames.
  unfold log_entries in He. now apply filter_In in He.
Qed.

(** C5, as the code has it: in a well-formed file system where [data/logs]
    is a directory whose [*.log] entries are regular files, and with a
    writable output path, [recent_logs] ranks the [*.log] entries by
    modification time, latest first, takes the first ten of them (all when
    there are fewer, and no entry left out is more recent than one taken),
    and writes the first line of each, stripped, in that order, joined by
    line feeds and followed by one line feed.  The file then holds one line
    per entry taken; with no [*.log] entry it holds one empty line. *)
Theorem recent_logs_spec (w : world) (m : Z) (es : list (string * node)) :
  valid_world w = true ->
  lookup_path w "data/logs" = Found (Dir m es) ->
  forallb (fun e => is_file (snd e)) (log_entries es) = true ->
  writable w "data/logs-recent.txt" = true ->
  exists ranked w',
    recent_logs w =
    Outcome
      (Guard "data/logs-recent.txt" :: Access Listdir "data/logs"
       :: map (fun e => Access Getmtime ("data/logs/" ++ fst e)) (log_entries es)
       ++ flat_map
            (fun e => [Guard ("data/logs/" ++ fst e);
                       Access OpenRead ("data/logs/" ++ fst e)])
            (firstn 10 ranked)
       ++ [Access OpenWrite "data/logs-recent.txt"])
      (inr tt) w'
    /\ Permutation (log_entries es) ranked
    /\ StronglySorted
         (fun a b => (node_mtime (snd b) <= node_mtime (snd a))%Z) ranked
    /\ List.length (firstn 10 ranked) = Nat.min 10 (List.length (log_entries es))
    /\ (forall a b,
          In a (firstn 10 ranked) -> In b (skipn 10 ranked) ->
          (node_mtime (snd b) <= node_mtime (snd a))%Z)
    /\ file_text w' "data/logs-recent.txt" =
       Some (join NL (map first_line (firstn 10 ranked)) ++ NL)%string
    /\ output_lines w' "data/logs-recent.txt" =
       match log_entries es with
       | [] => [NL]
       | _ :: _ => map (fun e => (first_line e ++ NL)%string) (firstn 10 ranked)
       end.
Proof.
  intros Hw Hdir Hfiles Hout.
  set (mtime := fun e : string * node => node_mtime (snd e)).
  set (path := fun e : string * node => ("data/logs/" ++ fst e)%string).
  set (ranked := py_sorted Z.ltb mtime true (log_entries es)).
  assert (Hperm : Permutation (log_entries es) ranked)
    by apply py_sorted_perm.
  assert (Hsorted : StronglySorted
                      (fun a b => (node_mtime (snd b) <= node_mtime (snd a))%Z)
                      ranked).
  { eapply sorted_impl; [|apply (py_sorted_descending Z.ltb mtime)].
    - intros x y H. unfold mtime in H. now apply Z.ltb_ge in H.
    - intros a b H. apply Z.ltb_lt in H. apply Z.ltb_ge. lia.
    - intros a b c H1 H2. apply Z.ltb_ge in H1, H2. apply Z.ltb_ge. lia. }
  assert (Hlisted : forall e, In e (log_entries es) -> In e es).
  { intros e He. unfold log_entries in He. now apply filter_In in He. }
  destruct (open_write_ok "data/logs-recent.txt"
              (join NL (map first_line (firstn 10 ranked)) ++ NL) w Hout)
    as (w' & Hwrite & Hread).
  exists ranked, w'. split; [|repeat split].
  - unfold recent_logs.
    change (os_path_join DATA_DIR "logs") with "data/logs".
    change (os_path_join DATA_DIR "logs-recent.txt") with "data/logs-recent.txt".
    cbv zeta. run_guard. run_with (listdir_dir _ _ _ _ Hdir).
    rewrite (log_paths _ _ _ Hw Hdir).
    assert (Hkeyed :
              for_each (map path (log_entries es))
                (fun p => t <- os_path_getmtime p ;; ret (t, p)) w =
              Outcome
                (map (fun e => Access Getmtime (path e)) (log_entries es))
                (inr (map (fun e => (mtime e, path e)) (log_entries es))) w).
    { rewrite for_each_map.
      rewrite (for_each_reads _ _ w (fun e => [Access Getmtime (path e)])
                 (fun e => (mtime e, path e))).
      - reflexivity.
      - intros e He. apply getmtime_found.
        apply (logs_entry_lookup _ _ _ _ Hw Hdir), Hlisted, He. }
    fold path. run_with Hkeyed.
    rewrite (py_sorted_map Z.ltb fst (fun e => (mtime e, path e))).
    cbn [fst]. fold ranked. rewrite map_map. cbn [snd]. rewrite firstn_map.
    assert (Hlines :
              for_each (map path (firstn 10 ranked))
                (fun log =>
                   enforce_security log ;;
                   text <- open_read log ;;
                   ret (strip (readline text))) w =
              Outcome
                (flat_map (fun e => [Guard (path e); Access OpenRead (path e)])
                   (firstn 10 ranked))
                (inr (map first_line (firstn 10 ranked))) w).
    { rewrite for_each_map. apply for_each_reads.
      intros e He. apply in_firstn in He.
      apply (Permutation_in _ (Permutation_sym Hperm)) in He.
      rewrite forallb_forall in Hfiles. pose proof (Hfiles e He) as Hfile.
      pose proof (logs_entry_lookup _ _ _ e Hw Hdir (Hlisted e He)) as Hlook.
      destruct e as [name [t d|]]; [|discriminate].
      apply (read_first_line _ _ t d); [reflexivity | exact Hlook]. }
    run_with Hlines. exact Hwrite.
  - exact Hperm.
  - exact Hsorted.
  - rewrite length_firstn. now rewrite (Permutation_length Hperm).
  - intros a b Ha Hb. rewrite <- (firstn_skipn 10 ranked) in Hsorted.
    exact (sorted_app_inv _ _ _ Hsorted a b Ha Hb).
  - exact Hread.
  - unfold output_lines. rewrite Hread.
    destruct (log_entries es) as [|e0 es0] eqn:Elogs.
    + apply Permutation_nil in Hperm. now rewrite Hperm.
    + rewrite readlines_joined, map_map; [reflexivity| |].
      * apply Permutation_length in Hperm.
        destruct ranked; [discriminate Hperm | discriminate].
      * apply Forall_forall. intros l Hl. apply in_map_iff in Hl.
        destruct Hl as (e & <- & _). apply first_line_plain.
Qed.

(** Three logs among four entries: ranked b, a, c. *)
Lemma recent_logs_spec_witness :
  exists ranked w',
    recent_logs sample_world =
    Outcome
      (Guard "data/logs-recent.txt" :: Access Listdir "data/logs"
       :: map (fun e => Access Getmtime ("data/logs/" ++ fst e))
            (log_entries sample_logs)
       ++ flat_map
            (fun e => [Guard ("data/logs/" ++ fst e);
                       Access OpenRead ("data/logs/" ++ fst e)])
            (firstn 10 ranked)
       ++ [Access OpenWrite "data/logs-recent.txt"])
      (inr tt) w'
    /\ Permutation (log_entries sample_logs) ranked
    /\ StronglySorted
         (fun a b => (node_mtime (snd b) <= node_mtime (snd a))%Z) ranked
    /\ List.length (firstn 10 ranked) =
       Nat.min 10 (List.length (log_entries sample_logs))
    /\ (forall a b,
          In a (firstn 10 ranked) -> In b (skipn 10 ranked) ->
          (node_mtime (snd b) <= node_mtime (snd a))%Z)
    /\ file_text w' "data/logs-recent.txt" =
       Some (join NL (map first_line (firstn 10 ranked)) ++ NL)%string
    /\ output_lines w' "data/logs-recent.txt" =
       map (fun e => (first_line e ++ NL)%string) (firstn 10 ranked).
Proof.
  exact (recent_logs_spec sample_world 9 sample_logs
           eq_refl eq_refl eq_refl eq_refl).
Defined.

(** C5, as stated: on a data directory whose [logs] directory is empty the
    output file does not hold an empty set of lines; it holds the one line
    feed that ends the joined text. *)
Lemma empty_directory_writes_a_line :
  lookup_path empty_logs_world "data/logs" = Found (Dir 9 [])
  /\ file_text (after (recent_logs empty_logs_world)) "data/logs-recent.txt" =
     Some NL
  /\ output_lines (after (recent_logs empty_logs_world)) "data/logs-recent.txt"
     <> [].
Proof. repeat split. discriminate. Qed.

(** ** Guarded traces *)

Lemma passed_app (t1 t2 : list event) :
  forall seen, passed (t1 ++ t2) seen = passed t2 (passed t1 seen).
Proof.
  induction t1 as [|[p|a p] r IH]; intro seen; cbn [app passed]; auto.
Qed.

Lemma passed_mono (tr : list event) :
  forall seen seen', incl seen seen' -> incl (passed tr seen) (passed tr seen').
Proof.
  induction tr as [|[p|a p] r IH]; intros seen seen' H; cbn [passed]; auto.
  apply IH. destruct (startswith p DATA_DIR); [|exact H].
  intros x [<-|Hx]; [now left | right; now apply H].
Qed.

Lemma passed_keeps (tr : list event) :
  forall seen, incl seen (passed tr seen).
Proof.
  induction tr as [|[p|a p] r IH]; intro seen; cbn [passed].
  - apply incl_refl.
  - destruct (startswith p DATA_DIR); [|apply IH].
    eapply incl_tran; [|apply IH]. now apply incl_tl, incl_refl.
  - apply IH.
Qed.

Lemma passed_in (tr : list event) :
  forall seen p,
    In p (passed tr seen) ->
    In p seen \/ (In (Guard p) tr /\ startswith p DATA_DIR = true).
Proof.
  induction tr as [|[q|a q] r IH]; intros seen p H; cbn [passed] in H.
  - now left.
  - destruct (IH _ _ H) as [Hs|[Hg Hp]].
    + destruct (startswith q DATA_DIR) eqn:E; [|now left].
      destruct Hs as [<-|Hs]; [right; split; [now left | exact E] | now left].
    + right. split; [now right | exact Hp].
  - destruct (IH _ _ H) as [Hs|[Hg Hp]]; [now left|].
    right. split; [now right | exact Hp].
Qed.

Lemma trace_ok_app (t1 t2 : list event) :
  forall seen,
    trace_ok seen (t1 ++ t2) <-> trace_ok seen t1 /\ trace_ok (passed t1 seen) t2.
Proof.
  induction t1 as [|[p|a p] r IH]; intro seen; cbn [app trace_ok passed].
  - tauto.
  - apply IH.
  - rewrite IH. tauto.
Qed.

Lemma trace_ok_mono (tr : list event) :
  forall seen seen', incl seen seen' -> trace_ok seen tr -> trace_ok seen' tr.
Proof.
  induction tr as [|[p|a p] r IH]; intros seen seen' H; cbn [trace_ok]; auto.
  - apply IH. destruct (startswith p DATA_DIR); [|exact H].
    intros x [<-|Hx]; [now left | right; now apply H].
  - intros [Ha Hr]. split; [|now apply (IH seen)].
    intro Ho. apply H. now apply Ha.
Qed.

(** What the scan establishes, stated on the trace alone. *)
Lemma trace_ok_sound (tr : list event) :
  trace_ok [] tr -> every_open_guarded tr.
Proof.
  intros H before a p rest -> Ho.
  apply trace_ok_app in H. destruct H as [_ H]. cbn [trace_ok] in H.
  destruct H as [H _]. destruct (passed_in _ _ _ (H Ho)) as [[]|Hg]. exact Hg.
Qed.

(** *** Rules *)

Lemma guards_ret {A : Type} (pre : list string) (a : A) : guards pre (ret a) pre.
Proof.
  intros w seen H. split; [exact I|]. intros _ _. exact H.
Qed.

Lemma guards_raise {A : Type} (pre post : list string) (e : exn) :
  guards pre (@raise A e) post.
Proof. intros w seen H. split; [exact I | discriminate]. Qed.

Lemma guards_weaken {A : Type} (pre pre' post post' : list string) (m : M A) :
  guards pre m post -> incl pre pre' -> incl post' post -> guards pre' m post'.
Proof.
  intros Hm Hpre Hpost w seen H.
  destruct (Hm w seen (incl_tran Hpre H)) as [Ht Hp]. split; [exact Ht|].
  intros a Ha. eapply incl_tran; [exact Hpost | now apply (Hp a)].
Qed.

Lemma guards_bind {A B : Type} (pre mid post : list string) (m : M A)
  (k : A -> M B) :
  guards pre m mid -> (forall a, guards mid (k a) post) ->
  guards pre (bind m k) post.
Proof.
  intros Hm Hk w seen H. destruct (Hm w seen H) as [Ht Hp]. unfold bind.
  destruct (m w) as [ev [e|a] w1]; cbn [events value after] in *.
  - split; [exact Ht | discriminate].
  - destruct (Hk a w1 (passed ev seen) (Hp a eq_refl)) as [Ht2 Hp2].
    split.
    + apply trace_ok_app. now split.
    + intros b Hb. rewrite passed_app. now apply (Hp2 b).
Qed.

Lemma guards_enforce (pre : list string) (p : string) :
  guards pre (enforce_security p) (p :: pre).
Proof.
  intros w seen H. unfold enforce_security, bind, emit.
  cbn [events value after app].
  destruct (startswith p DATA_DIR) eqn:E; cbn [negb events value after app].
  - cbn [trace_ok passed]. rewrite E. split; [exact I|].
    intros _ _ x [<-|Hx]; [now left | right; now apply H].
  - split; [|discriminate]. cbn [trace_ok]. now rewrite E.
Qed.

(** A single file-system call on [p]: allowed when it does not open [p], or
    when [p] has passed the guard. *)
Lemma guards_call {A : Type} (pre : list string) (m : M A) (a : access)
  (p : string) :
  (forall w, events (m w) = [Access a p]) ->
  (opens a = true -> In p pre) ->
  guards pre m pre.
Proof.
  intros Hev Hp w seen H. rewrite Hev. cbn [trace_ok passed]. split.
  - split; [|exact I]. intro Ho. now apply H, Hp.
  - intros _ _. exact H.
Qed.

Lemma guards_exists (pre : list string) (p : string) :
  In p pre -> guards pre (os_path_exists p) pre.
Proof. intro H. now apply (guards_call pre _ Exists p). Qed.

Lemma guards_listdir (pre : list string) (p : string) :
  guards pre (os_listdir p) pre.
Proof. now apply (guards_call pre _ Listdir p). Qed.

Lemma guards_getmtime (pre : list string) (p : string) :
  guards pre (os_path_getmtime p) pre.
Proof. now apply (guards_call pre _ Getmtime p). Qed.

Lemma guards_open_read (pre : list string) (p : string) :
  In p pre -> guards pre (open_read p) pre.
Proof.
  intro H. apply (guards_call pre _ OpenRead p); [|auto].
  intro w. unfold open_read, bind, read_node. cbn [events value after].
  now destruct (lookup_path w p) as [[|]| |].
Qed.

Lemma guards_image_open (pre : list string) (p : string) :
  In p pre -> guards pre (image_open p) pre.
Proof. intro H. now apply (guards_call pre _ ImageOpen p). Qed.

Lemma guards_open_write (pre : list string) (p data : string) :
  In p pre -> guards pre (open_write p data) pre.
Proof.
  intro H. apply (guards_call pre _ OpenWrite p); [|auto].
  intro w. unfold open_write.
  now destruct (store (cwd w) (components p) (clock w) data) as [[| |]|].
Qed.

Lemma guards_connect (pre : list string) (p : string) :
  In p pre -> guards pre (sqlite3_connect p) pre.
Proof.
  intro H. apply (guards_call pre _ Connect p); [|auto].
  intro w. unfold sqlite3_connect.
  destruct (lookup_path w p) as [[|]| |]; try reflexivity.
  now destruct (store (cwd w) (components p) (clock w) EmptyString).
Qed.

Lemma guards_library {A : Type} (pre : list string) (r : string + A) :
  guards pre (library r) pre.
Proof. destruct r; [apply guards_raise | apply guards_ret]. Qed.

Lemma guards_list_index (pre : list string) (items : list string) (i : nat) :
  guards pre (list_index items i) pre.
Proof.
  unfold list_index. destruct (nth_error items i);
    [apply guards_ret | apply guards_raise].
Qed.

Lemma guards_contact_key (pre : list string) (x : contact) :
  guards pre (contact_key x) pre.
Proof.
  unfold contact_key. destruct (assoc "last_name" x); [|apply guards_raise].
  destruct (assoc "first_name" x); [apply guards_ret | apply guards_raise].
Qed.

Lemma guards_for_each {A B : Type} (pre : list string) (items : list A)
  (body : A -> M B) :
  (forall x, guards pre (body x) pre) -> guards pre (for_each items body) pre.
Proof.
  intro H. induction items as [|x r IH]; cbn [for_each]; [apply guards_ret|].
  eapply guards_bind; [apply H|]. intro y.
  eapply guards_bind; [apply IH|]. intro ys. apply guards_ret.
Qed.

(** A guarded read inside a loop: the path it adds is dropped again. *)
Lemma guards_checked {A : Type} (pre : list string) (p : string) (m : M A) :
  guards (p :: pre) m (p :: pre) -> guards pre (enforce_security p ;; m) pre.
Proof.
  intro H. eapply guards_weaken; [|apply incl_refl|apply incl_tl, incl_refl].
  eapply guards_bind; [apply guards_enforce|]. intros _. exact H.
Qed.

Lemma guards_index_files (docs_dir : string) (files : list string) :
  forall pre index, guards pre (index_files docs_dir files index) pre.
Proof.
  induction files as [|file rest IH]; intros pre index; cbn [index_files].
  - apply guards_ret.
  - destruct (endswith file ".md"); [|apply IH].
    cbv zeta. apply guards_checked.
    eapply guards_bind; [apply guards_open_read; now left|]. intro text.
    destruct (first_heading (readlines text)); apply IH.
Qed.

Lemma guards_if {A : Type} (pre post : list string) (c : bool) (m1 m2 : M A) :
  guards pre m1 post -> guards pre m2 post ->
  guards pre (if c then m1 else m2) post.
Proof. now destruct c. Qed.

Ltac solve_incl :=
  first [apply incl_refl | intros ? ?; cbn [In] in *; tauto].

(** A rule whose postcondition is its precondition, used where fewer paths
    are asked for. *)
Ltac guards_leaf rule :=
  eapply guards_weaken; [ | apply incl_refl | ]; [rule | solve_incl].

(** Solves [guards] goals of straight-line code. *)
Ltac guards_step :=
  first
    [ apply guards_enforce
    | apply guards_if
    | guards_leaf ltac:(apply guards_ret)
    | guards_leaf ltac:(apply guards_raise)
    | guards_leaf ltac:(apply guards_exists; cbn [In]; tauto)
    | guards_leaf ltac:(apply guards_listdir)
    | guards_leaf ltac:(apply guards_getmtime)
    | guards_leaf ltac:(apply guards_open_read; cbn [In]; tauto)
    | guards_leaf ltac:(apply guards_open_write; cbn [In]; tauto)
    | guards_leaf ltac:(apply guards_image_open; cbn [In]; tauto)
    | guards_leaf ltac:(apply guards_connect; cbn [In]; tauto)
    | guards_leaf ltac:(apply guards_library)
    | guards_leaf ltac:(apply guards_list_index)
    | guards_leaf ltac:(apply guards_contact_key)
    | guards_leaf ltac:(apply guards_index_files)
    | guards_leaf ltac:(apply guards_for_each; intro)
    | guards_leaf ltac:(apply guards_checked)
    | eapply guards_bind; [|intro] ].

Lemma guards_recent_logs :
  guards [] recent_logs ["data/logs-recent.txt"].
Proof. unfold recent_logs. cbv zeta. repeat guards_step. Qed.

Lemma guards_task (ext : externals) (task : string) (run : M unit) :
  assoc task (task_map ext) = Some run -> exists post, guards [] run post.
Proof.
  intro H. apply assoc_in in H. unfold task_map in H. cbn [In] in H.
  repeat (destruct H as [H|H];
          [inversion H; subst; eexists; cbv zeta; repeat guards_step|]).
  contradiction.
Qed.

(** X15: every call of a task that opens a path for reading or writing,
    opens an image, connects to a database or tests whether a path exists
    comes after a guard call on that very path, the files found by a
    directory listing included, and the path starts with the data root;
    [get_task_output] opens nothing; a guard call on a path that does not
    start with the data root raises [PermissionError] at once.  Listing a
    directory and reading modification times are not covered. *)
Theorem opened_paths_are_guarded (ext : externals) (task : string) (w : world) :
  every_open_guarded (events (run_task ext task w))
  /\ every_open_guarded (events (get_task_output task w))
  /\ (forall p w0,
        startswith p DATA_DIR = false ->
        enforce_security p w0 =
        Outcome [Guard p]
          (inl (PermissionError
                  ("Access denied: " ++ p ++ " is outside " ++ DATA_DIR)))
          w0).
Proof.
  split; [|split; [|intros p w0; apply enforce_security_denied]].
  - apply trace_ok_sound. unfold run_task.
    destruct (assoc task (task_map ext)) as [run|] eqn:E; [|exact I].
    rewrite try_except_outcome. cbn [events].
    destruct (guards_task ext task run E) as [post H].
    apply (H w []), incl_refl.
  - apply trace_ok_sound. unfold get_task_output, get_task_output_with.
    destruct (assoc task output_map); exact I.
Qed.

Lemma bind_events_step {A B : Type} (m : M A) (k : A -> M B) (w w1 : world)
  (ev : list event) (a : A) :
  m w = Outcome ev (inr a) w1 ->
  events (bind m k w) = ev ++ events (k a w1).
Proof. intro H. unfold bind. now rewrite H. Qed.

Lemma bind_events {A B : Type} (m : M A) (k : A -> M B) (w : world) :
  exists tail, events (bind m k w) = events (m w) ++ tail.
Proof.
  unfold bind. destruct (m w) as [ev [e|a] w1]; cbn [events value after].
  - exists []. now rewrite app_nil_r.
  - eexists. reflexivity.
Qed.

(** The first two calls of the listing tasks. *)
Lemma recent_logs_lists_first (w : world) :
  exists rest,
    events (recent_logs w) =
    Guard "data/logs-recent.txt" :: Access Listdir "data/logs" :: rest.
Proof.
  unfold recent_logs. cbv zeta.
  rewrite (bind_events_step _ _ w w [Guard "data/logs-recent.txt"] tt)
    by (apply enforce_security_ok; reflexivity).
  destruct (bind_events (os_listdir (os_path_join DATA_DIR "logs"))
              (fun names =>
                 let paths :=
                   map (os_path_join (os_path_join DATA_DIR "logs"))
                     (filter (fun f => endswith f ".log") names) in
                 keyed <- for_each paths
                            (fun p => t <- os_path_getmtime p ;; ret (t, p)) ;;
                 first_lines <-
                   for_each
                     (firstn 10 (map snd (py_sorted Z.ltb fst true keyed)))
                     (fun log =>
                        enforce_security log ;;
                        text <- open_read log ;;
                        ret (strip (readline text))) ;;
                 open_write (os_path_join DATA_DIR "logs-recent.txt")
                   (join NL first_lines ++ NL)%string) w) as [tail Htail].
  exists tail. cbv zeta in Htail. rewrite Htail. reflexivity.
Qed.

Lemma index_markdown_lists_first (ext : externals) (w : world) :
  exists rest,
    events (index_markdown ext w) =
    Guard "data/docs/index.json" :: Access Listdir "data/docs" :: rest.
Proof.
  unfold index_markdown. cbv zeta.
  rewrite (bind_events_step _ _ w w [Guard "data/docs/index.json"] tt)
    by (apply enforce_security_ok; reflexivity).
  destruct (bind_events (os_listdir (os_path_join DATA_DIR "docs"))
              (fun files =>
                 index <- index_files (os_path_join DATA_DIR "docs") files [] ;;
                 open_write (os_path_join DATA_DIR "docs/index.json")
                   (json_dump_index ext index)) w) as [tail Htail].
  exists tail. rewrite Htail. reflexivity.
Qed.

Lemma run_task_events (ext : externals) (task : string) (run : M unit)
  (w : world) :
  assoc task (task_map ext) = Some run ->
  events (run_task ext task w) = events (run w).
Proof. intro H. unfold run_task. now rewrite H, try_except_outcome. Qed.

(** The modification times [recent_logs] reads come right after the
    listing. *)
Lemma recent_logs_reads_times (w : world) (m : Z) (es : list (string * node)) :
  valid_world w = true ->
  lookup_path w "data/logs" = Found (Dir m es) ->
  exists rest,
    events (recent_logs w) =
    Guard "data/logs-recent.txt" :: Access Listdir "data/logs"
    :: map (fun e => Access Getmtime ("data/logs/" ++ fst e)) (log_entries es)
    ++ rest.
Proof.
  intros Hw Hdir.
  assert (Hlisted : forall e, In e (log_entries es) -> In e es).
  { intros e He. unfold log_entries in He. now apply filter_In in He. }
  unfold recent_logs.
  change (os_path_join DATA_DIR "logs") with "data/logs".
  change (os_path_join DATA_DIR "logs-recent.txt") with "data/logs-recent.txt".
  cbv zeta.
  rewrite (bind_events_step _ _ w w [Guard "data/logs-recent.txt"] tt)
    by (apply enforce_security_ok; reflexivity).
  rewrite (bind_events_step _ _ w w _ _ (listdir_dir _ _ _ _ Hdir)).
  rewrite (log_paths _ _ _ Hw Hdir).
  assert (Hkeyed :
            for_each
              (map (fun e => ("data/logs/" ++ fst e)%string) (log_entries es))
              (fun p => t <- os_path_getmtime p ;; ret (t, p)) w =
            Outcome
              (map (fun e => Access Getmtime ("data/logs/" ++ fst e))
                 (log_entries es))
              (inr (map (fun e => (node_mtime (snd e),
                                   ("data/logs/" ++ fst e)%string))
                      (log_entries es))) w).
  { rewrite for_each_map.
    rewrite (for_each_reads _ _ w
               (fun e => [Access Getmtime ("data/logs/" ++ fst e)])
               (fun e => (node_mtime (snd e), ("data/logs/" ++ fst e)%string))).
    - reflexivity.
    - intros e He. apply getmtime_found.
      apply (logs_entry_lookup _ _ _ _ Hw Hdir), Hlisted, He. }
  rewrite (bind_events_step _ _ w w _ _ Hkeyed).
  eexists. reflexivity.
Qed.

(** C2: the two listing tasks access paths that no guard call has checked.
    Whatever the file system holds, [recent_logs] lists [data/logs] and
    [index_markdown] lists [data/docs] right after the guard call on the
    output file, so the directory is read with no guard call on it.  In a
    well-formed file system where [data/logs] is a directory, [recent_logs]
    also reads the modification time of every [*.log] entry before any
    guard call on that file. *)
Theorem listings_are_not_guarded (ext : externals) (w : world) :
  (exists rest,
     events (run_task ext "recent_logs" w) =
     Guard "data/logs-recent.txt" :: Access Listdir "data/logs" :: rest)
  /\ (exists rest,
        events (run_task ext "index_markdown" w) =
        Guard "data/docs/index.json" :: Access Listdir "data/docs" :: rest)
  /\ ~ every_access_guarded (events (run_task ext "recent_logs" w))
  /\ ~ every_access_guarded (events (run_task ext "index_markdown" w))
  /\ (forall m es e,
        valid_world w = true ->
        lookup_path w "data/logs" = Found (Dir m es) ->
        In e (log_entries es) ->
        exists before rest,
          events (run_task ext "recent_logs" w) =
          before ++ Access Getmtime ("data/logs/" ++ fst e) :: rest
          /\ ~ In (Guard ("data/logs/" ++ fst e)) before).
Proof.
  rewrite (run_task_events ext "recent_logs" recent_logs w eq_refl).
  rewrite (run_task_events ext "index_markdown" (index_markdown ext) w eq_refl).
  destruct (recent_logs_lists_first w) as [rest1 H1].
  destruct (index_markdown_lists_first ext w) as [rest2 H2].
  split; [now exists rest1|]. split; [now exists rest2|].
  split; [|split].
  - intro H. rewrite H1 in H.
    destruct (H [Guard "data/logs-recent.txt"] Listdir "data/logs" rest1
                eq_refl) as [E|[]].
    discriminate E.
  - intro H. rewrite H2 in H.
    destruct (H [Guard "data/docs/index.json"] Listdir "data/docs" rest2
                eq_refl) as [E|[]].
    discriminate E.
  - intros m es e Hw Hdir He.
    destruct (recent_logs_reads_times w m es Hw Hdir) as [rest Hrest].
    destruct (in_split _ _ He) as (l1 & l2 & Hsplit).
    rewrite Hsplit, map_app in Hrest. cbn [map] in Hrest.
    exists (Guard "data/logs-recent.txt" :: Access Listdir "data/logs"
            :: map (fun e0 => Access Getmtime ("data/logs/" ++ fst e0)) l1).
    exists (map (fun e0 => Access Getmtime ("data/logs/" ++ fst e0)) l2 ++ rest).
    split.
    + rewrite Hrest. cbn [app]. now rewrite <- app_assoc.
    + intros [E|[E|E]].
      * cbn [append] in E. discriminate E.
      * discriminate E.
      * apply in_map_iff in E. destruct E as (e0 & E & _). discriminate E.
Qed.

(** Three logs in the sample directory: the modification time of [a.log] is
    read before the guard call on it. *)
Lemma listings_are_not_guarded_witness :
  exists before rest,
    events (run_task sample_ext "recent_logs" sample_world) =
    before ++ Access Getmtime "data/logs/a.log" :: rest
    /\ ~ In (Guard "data/logs/a.log") before.
Proof.
  exact (proj2 (proj2 (proj2 (proj2
           (listings_are_not_guarded sample_ext sample_world))))
           9%Z sample_logs ("a.log", File 5 ("alpha" ++ NL ++ "more" ++ NL))
           eq_refl eq_refl (or_introl eq_refl)).
Defined.

(** ** Guard calls never fail *)

Lemma guard_safe_bind {A B : Type} (m : M A) (k : A -> M B) (w : world) :
  guard_safe m w ->
  (forall a, value (m w) = inr a -> guard_safe (k a) (after (m w))) ->
  guard_safe (bind m k) w.
Proof.
  intros [Hg He] Hk. unfold guard_safe, bind in *.
  destruct (m w) as [ev [e|a] w1]; cbn [events value after] in *.
  - split; [exact Hg|]. intros msg [= ->]. now elim (He msg).
  - destruct (Hk a eq_refl) as [Hg2 He2]. split; [|exact He2].
    intros p Hp. apply in_app_or in Hp. destruct Hp; auto.
Qed.

(** A computation with no guard call that never raises [PermissionError]. *)
Lemma guard_safe_quiet {A : Type} (m : M A) (w : world) :
  (forall p, ~ In (Guard p) (events (m w))) ->
  (forall msg, value (m w) <> inl (PermissionError msg)) ->
  guard_safe m w.
Proof. intros Hg He. split; [|exact He]. intros p Hp. now elim (Hg p). Qed.

Lemma guard_safe_ret {A : Type} (a : A) (w : world) : guard_safe (ret a) w.
Proof. apply guard_safe_quiet; [intros p [] | discriminate]. Qed.

Lemma guard_safe_enforce (p : string) (w : world) :
  startswith p DATA_DIR = true -> guard_safe (enforce_security p) w.
Proof.
  intro H. unfold guard_safe.
  rewrite (enforce_security_ok p w H). cbn [events value]. split.
  - intros q [[= <-]|[]]. exact H.
  - discriminate.
Qed.

Lemma guard_safe_exists (p : string) (w : world) :
  guard_safe (os_path_exists p) w.
Proof.
  apply guard_safe_quiet; cbn [os_path_exists events value].
  - intros q [|[]]; discriminate.
  - discriminate.
Qed.

Lemma guard_safe_listdir (p : string) (w : world) :
  guard_safe (os_listdir p) w.
Proof.
  apply guard_safe_quiet; cbn [os_listdir events value].
  - intros q [|[]]; discriminate.
  - now destruct (lookup_path w p) as [[|]| |].
Qed.

Lemma guard_safe_getmtime (p : string) (w : world) :
  guard_safe (os_path_getmtime p) w.
Proof.
  apply guard_safe_quiet; cbn [os_path_getmtime events value].
  - intros q [|[]]; discriminate.
  - now destruct (lookup_path w p) as [[|]| |].
Qed.

Lemma guard_safe_read_node (a : access) (p : string) (w : world) :
  guard_safe (read_node a p) w.
Proof.
  apply guard_safe_quiet; cbn [read_node events value].
  - intros q [|[]]; discriminate.
  - now destruct (lookup_path w p) as [[|]| |].
Qed.

Lemma guard_safe_open_read (p : string) (w : world) :
  guard_safe (open_read p) w.
Proof.
  apply guard_safe_bind; [apply guard_safe_read_node|].
  intros text _. apply guard_safe_ret.
Qed.

Lemma guard_safe_open_write (p data : string) (w : world) :
  guard_safe (open_write p data) w.
Proof.
  apply guard_safe_quiet; unfold open_write;
    destruct (store (cwd w) (components p) (clock w) data) as [[| |]|];
    cbn [events value]; try discriminate; intros q [|[]]; discriminate.
Qed.

Lemma guard_safe_connect (p : string) (w : world) :
  guard_safe (sqlite3_connect p) w.
Proof.
  apply guard_safe_quiet; unfold sqlite3_connect;
    destruct (lookup_path w p) as [[|]| |];
    try destruct (store (cwd w) (components p) (clock w) EmptyString);
    cbn [events value]; try discriminate; intros q [|[]]; discriminate.
Qed.

Lemma guard_safe_library {A : Type} (r : string + A) (w : world) :
  guard_safe (library r) w.
Proof.
  destruct r; apply guard_safe_quiet; cbn; try discriminate; intros p [].
Qed.

Lemma guard_safe_list_index (items : list string) (i : nat) (w : world) :
  guard_safe (list_index items i) w.
Proof.
  unfold list_index. destruct (nth_error items i);
    apply guard_safe_quiet; cbn; try discriminate; intros p [].
Qed.

Lemma guard_safe_contact_key (x : contact) (w : world) :
  guard_safe (contact_key x) w.
Proof.
  unfold contact_key. destruct (assoc "last_name" x);
    [destruct (assoc "first_name" x)|];
    apply guard_safe_quiet; cbn; try discriminate; intros p [].
Qed.

Lemma guard_safe_for_each {A B : Type} (items : list A) (body : A -> M B) :
  (forall x w, In x items -> guard_safe (body x) w) ->
  forall w, guard_safe (for_each items body) w.
Proof.
  induction items as [|x r IH]; intros H w; cbn [for_each].
  - apply guard_safe_ret.
  - apply guard_safe_bind; [apply H; now left|]. intros y _.
    apply guard_safe_bind; [apply IH; intros; apply H; now right|].
    intros ys _. apply guard_safe_ret.
Qed.

(** What a loop returns comes from its items. *)
Lemma for_each_values {A B : Type} (items : list A) (body : A -> M B)
  (P : A -> B -> Prop) :
  (forall x w y, value (body x w) = inr y -> P x y) ->
  forall w ys,
    value (for_each items body w) = inr ys ->
    forall y, In y ys -> exists x, In x items /\ P x y.
Proof.
  intro H. induction items as [|x r IH]; intros w ys Hv y Hy;
    cbn [for_each] in Hv.
  - inversion Hv; subst. contradiction.
  - unfold bind in Hv.
    destruct (body x w) as [ev [e|y0] w1] eqn:Ex; cbn [events value after] in Hv;
      [discriminate|].
    destruct (for_each r body w1) as [ev2 [e|ys0] w2] eqn:Er;
      cbn [events value after] in Hv; [discriminate|].
    unfold ret in Hv. cbn [value] in Hv. inversion Hv; subst.
    destruct Hy as [<-|Hy].
    + exists x. split; [now left|]. apply (H x w). now rewrite Ex.
    + destruct (IH w1 ys0) with (y := y) as (x' & Hx' & HP); auto.
      * now rewrite Er.
      * exists x'. split; [now right | exact HP].
Qed.

Lemma prefix_append (s : string) :
  forall p tail,
    String.prefix p s = true -> String.prefix p (s ++ tail) = true.
Proof.
  induction s as [|b s IH]; intros p tail H.
  - destruct p as [|a p]; [|discriminate]. now destruct tail.
  - destruct p as [|a p]; [reflexivity|]. cbn [String.prefix append] in *.
    destruct (ascii_dec a b); [now apply IH | discriminate].
Qed.

Lemma joined_name_in_root (dir name : string) :
  startswith dir DATA_DIR = true ->
  valid_name name = true ->
  startswith (os_path_join dir name) DATA_DIR = true.
Proof.
  intros Hdir Hname. unfold os_path_join.
  rewrite (valid_name_no_root _ Hname). unfold startswith in *.
  destruct (negb (truthy dir) || endswith dir "/"); now apply prefix_append.
Qed.

Lemma guard_safe_index_files (docs_dir : string) (files : list string) :
  startswith docs_dir DATA_DIR = true ->
  Forall (fun f => valid_name f = true) files ->
  forall index w, guard_safe (index_files docs_dir files index) w.
Proof.
  intros Hdir. induction 1 as [|file rest Hfile Hrest IH]; intros index w;
    cbn [index_files].
  - apply guard_safe_ret.
  - destruct (endswith file ".md"); [|apply IH]. cbv zeta.
    apply guard_safe_bind;
      [apply guard_safe_enforce; now apply joined_name_in_root|].
    intros _ _. apply guard_safe_bind; [apply guard_safe_open_read|].
    intros text _. destruct (first_heading (readlines text)); apply IH.
Qed.

Lemma after_enforce (p : string) (w : world) : after (enforce_security p w) = w.
Proof.
  unfold enforce_security, bind, emit. cbn [value after].
  now destruct (negb (startswith p DATA_DIR)).
Qed.

(** The names a listing returns in a well-formed file system. *)
Lemma listdir_names_valid (p : string) (w : world) (names : list string) :
  valid_world w = true ->
  value (os_listdir p w) = inr names ->
  Forall (fun f => valid_name f = true) names.
Proof.
  intros Hw Hv. unfold os_listdir in Hv. cbn [value] in Hv.
  destruct (lookup_path w p) as [[|m es]| |] eqn:E; try discriminate.
  inversion Hv; subst. destruct (listed_names_valid _ _ _ _ Hw E) as [_ H].
  apply Forall_forall. intros f Hf. apply in_map_iff in Hf.
  destruct Hf as (e & <- & He). now apply H.
Qed.

(** Steps through straight-line code whose guard calls are on literal
    paths. *)
Ltac guard_safe_step :=
  first
    [ apply guard_safe_ret
    | apply guard_safe_enforce; reflexivity
    | apply guard_safe_exists
    | apply guard_safe_open_read
    | apply guard_safe_open_write
    | apply guard_safe_read_node
    | apply guard_safe_connect
    | apply guard_safe_library
    | apply guard_safe_list_index
    | apply guard_safe_contact_key
    | apply guard_safe_getmtime
    | apply guard_safe_for_each; intros ? ? ?
    | match goal with
      | |- guard_safe (if ?c then _ else _) _ => destruct c
      end
    | apply guard_safe_bind; [|intros ? ?] ].

Lemma getmtime_pair_path (p : string) (w : world) (y : Z * string) :
  value ((t <- os_path_getmtime p ;; ret (t, p)) w) = inr y -> snd y = p.
Proof.
  unfold bind, os_path_getmtime. cbn [events value after].
  destruct (lookup_path w p); cbn [value ret]; intro H; inversion H.
  reflexivity.
Qed.

Lemma guard_safe_recent_logs (w : world) :
  valid_world w = true -> guard_safe recent_logs w.
Proof.
  intro Hw. unfold recent_logs.
  change (os_path_join DATA_DIR "logs") with "data/logs".
  change (os_path_join DATA_DIR "logs-recent.txt") with "data/logs-recent.txt".
  cbv zeta. apply guard_safe_bind; [guard_safe_step|]. intros _ _.
  rewrite after_enforce.
  apply guard_safe_bind; [apply guard_safe_listdir|]. intros names Hnames.
  pose proof (listdir_names_valid _ _ _ Hw Hnames) as Hvalid.
  apply guard_safe_bind; [repeat guard_safe_step|]. intros keyed Hkeyed.
  apply guard_safe_bind; [|intros; apply guard_safe_open_write].
  apply guard_safe_for_each. intros log w1 Hlog.
  apply guard_safe_bind; [|intros; repeat guard_safe_step].
  apply guard_safe_enforce.
  apply in_firstn, in_map_iff in Hlog. destruct Hlog as (y & <- & Hy).
  apply (Permutation_in _ (Permutation_sym (py_sorted_perm _ _ _ _))) in Hy.
  destruct (for_each_values _ _ (fun p y => snd y = p) getmtime_pair_path
              _ _ Hkeyed y Hy) as (p & Hp & <-).
  apply in_map_iff in Hp. destruct Hp as (f & <- & Hf).
  apply joined_name_in_root; [reflexivity|].
  apply filter_In in Hf. destruct Hf as [Hf _].
  rewrite Forall_forall in Hvalid. now apply Hvalid.
Qed.

Lemma guard_safe_index_markdown (ext : externals) (w : world) :
  valid_world w = true -> guard_safe (index_markdown ext) w.
Proof.
  intro Hw. unfold index_markdown.
  change (os_path_join DATA_DIR "docs") with "data/docs".
  change (os_path_join DATA_DIR "docs/index.json") with "data/docs/index.json".
  cbv zeta. apply guard_safe_bind; [guard_safe_step|]. intros _ _.
  rewrite after_enforce.
  apply guard_safe_bind; [apply guard_safe_listdir|]. intros files Hfiles.
  pose proof (listdir_names_valid _ _ _ Hw Hfiles) as Hvalid.
  apply guard_safe_bind; [|intros; apply guard_safe_open_write].
  now apply guard_safe_index_files.
Qed.

(** C10: in a well-formed file system, where entry names hold no slash,
    every guard call of every task is on a path that starts with the data
    root, so none fails, and no task ends in [PermissionError]. *)
Theorem guard_calls_succeed (ext : externals) (task : string) (run : M unit)
  (w : world) :
  valid_world w = true ->
  assoc task (task_map ext) = Some run ->
  (forall p, In (Guard p) (events (run w)) -> startswith p DATA_DIR = true)
  /\ (forall msg, value (run w) <> inl (PermissionError msg)).
Proof.
  intros Hw H. change (guard_safe run w).
  apply assoc_in in H. unfold task_map in H. cbn [In] in H.
  destruct H as [H|[H|[H|[H|H]]]];
    [inversion H; subst; unfold count_wednesdays; cbv zeta;
     repeat guard_safe_step
    |inversion H; subst; unfold sort_contacts; cbv zeta; repeat guard_safe_step
    |inversion H; subst; now apply guard_safe_recent_logs
    |inversion H; subst; now apply guard_safe_index_markdown
    |].
  destruct H as [H|[H|[H|[H|[]]]]]; inversion H; subst.
  - unfold email_sender. cbv zeta. repeat guard_safe_step.
  - unfold extract_credit_card, image_open. cbv zeta. repeat guard_safe_step.
  - unfold similar_comments. cbv zeta. repeat guard_safe_step.
  - unfold total_gold_sales. cbv zeta. repeat guard_safe_step.
Qed.

(** [recent_logs] on the sample directory, whose guard calls are on listed
    files. *)
Lemma guard_calls_succeed_witness :
  (forall p,
     In (Guard p) (events (recent_logs sample_world)) ->
     startswith p DATA_DIR = true)
  /\ (forall msg, value (recent_logs sample_world) <> inl (PermissionError msg)).
Proof.
  exact (guard_calls_succeed sample_ext "recent_logs" recent_logs sample_world
           eq_refl eq_refl).
Defined.


(** One comment and one blank line in the sample comments file. *)
Lemma similar_comments_skips_witness :
  similar_comments sample_ext sample_world =
  Outcome
    [Guard "data/comments.txt"; Guard "data/comments-similar.txt";
     Access OpenRead "data/comments.txt"]
    (inr tt) sample_world
  /\ run_task sample_ext "similar_comments" sample_world =
     Outcome
       [Guard "data/comments.txt"; Guard "data/comments-similar.txt";
        Access OpenRead "data/comments.txt"]
       (inr (Json [("status", "success")])) sample_world.
Proof.
  apply (similar_comments_skips sample_ext sample_world
           ("only one comment" ++ NL ++ "   " ++ NL) eq_refl).
  vm_compute. lia.
Defined.

(** * Further properties *)

(** ** What a task writes, and when *)

Section Writes.
Variable dbs : list string.

Lemma connects_only_nil : connects_only dbs [].
Proof. intros a q _ []. Qed.

Lemma connects_only_app (t1 t2 : list event) :
  connects_only dbs t1 -> connects_only dbs t2 -> connects_only dbs (t1 ++ t2).
Proof.
  intros H1 H2 a q Ha Hq. apply in_app_or in Hq.
  destruct Hq; [now apply H1 | now apply H2].
Qed.

Lemma connects_only_guard (p : string) : connects_only dbs [Guard p].
Proof. intros a q _ [H|[]]. discriminate H. Qed.

Lemma connects_only_call (a : access) (p : string) :
  creates a = false -> connects_only dbs [Access a p].
Proof. intros Ha b q Hb [H|[]]. inversion H; subst. congruence. Qed.

Lemma writes_last_none (p : string) (tr : list event) :
  connects_only dbs tr -> writes_last dbs p tr.
Proof. intro H. exists tr. split; [now left | exact H]. Qed.

Lemma writes_last_app (p : string) (t1 t2 : list event) :
  connects_only dbs t1 ->
  writes_last dbs p t2 -> writes_last dbs p (t1 ++ t2).
Proof.
  intros H1 (before & Hshape & Hb). exists (t1 ++ before). split.
  - destruct Hshape as [->| ->]; [now left | right; now rewrite app_assoc].
  - now apply connects_only_app.
Qed.

Lemma no_write_bind {A B : Type} (m : M A) (k : A -> M B) :
  no_write dbs m -> (forall a, no_write dbs (k a)) -> no_write dbs (bind m k).
Proof.
  intros Hm Hk w. unfold bind. specialize (Hm w).
  destruct (m w) as [ev [e|a] w1]; cbn [events value after] in *; [exact Hm|].
  apply connects_only_app; [exact Hm | apply Hk].
Qed.

Lemma last_write_bind {A B : Type} (p : string) (m : M A) (k : A -> M B) :
  no_write dbs m -> (forall a, last_write dbs p (k a)) ->
  last_write dbs p (bind m k).
Proof.
  intros Hm Hk w. unfold bind. pose proof (Hm w) as Hw.
  destruct (m w) as [ev [e|a] w1]; cbn [events value after] in *.
  - now apply writes_last_none.
  - apply writes_last_app; [exact Hw | apply Hk].
Qed.

Lemma last_write_quiet {A : Type} (p : string) (m : M A) :
  no_write dbs m -> last_write dbs p m.
Proof. intros H w. apply writes_last_none, H. Qed.

Lemma last_write_open_write (p data : string) :
  last_write dbs p (open_write p data).
Proof.
  intro w. exists []. split; [|apply connects_only_nil].
  right. unfold open_write.
  now destruct (store (cwd w) (components p) (clock w) data) as [[| |]|].
Qed.

Lemma no_write_ret {A : Type} (a : A) : no_write dbs (ret a).
Proof. intro w. apply connects_only_nil. Qed.

Lemma no_write_raise {A : Type} (e : exn) : no_write dbs (@raise A e).
Proof. intro w. apply connects_only_nil. Qed.

Lemma no_write_enforce (p : string) : no_write dbs (enforce_security p).
Proof.
  intro w. unfold enforce_security, bind, emit. cbn [events value after].
  destruct (negb (startswith p DATA_DIR)); apply connects_only_guard.
Qed.

Lemma no_write_exists (p : string) : no_write dbs (os_path_exists p).
Proof. intro w. now apply connects_only_call. Qed.

Lemma no_write_listdir (p : string) : no_write dbs (os_listdir p).
Proof. intro w. now apply connects_only_call. Qed.

Lemma no_write_getmtime (p : string) : no_write dbs (os_path_getmtime p).
Proof. intro w. now apply connects_only_call. Qed.

Lemma no_write_read_node (a : access) (p : string) :
  creates a = false -> no_write dbs (read_node a p).
Proof. intros Ha w. now apply connects_only_call. Qed.

Lemma no_write_open_read (p : string) : no_write dbs (open_read p).
Proof.
  apply no_write_bind; [now apply no_write_read_node | intro; apply no_write_ret].
Qed.

(** A connection is the one call besides the final write that can create a
    file; it is allowed on the databases [dbs]. *)
Lemma no_write_connect (p : string) :
  In p dbs -> no_write dbs (sqlite3_connect p).
Proof.
  intros Hp w. unfold sqlite3_connect.
  assert (H : connects_only dbs [Access Connect p]).
  { intros a q _ [E|[]]. inversion E; subst. now split. }
  destruct (lookup_path w p) as [[|]| |];
    try destruct (store (cwd w) (components p) (clock w) EmptyString);
    exact H.
Qed.

Lemma no_write_library {A : Type} (r : string + A) : no_write dbs (library r).
Proof. destruct r; [apply no_write_raise | apply no_write_ret]. Qed.

Lemma no_write_list_index (items : list string) (i : nat) :
  no_write dbs (list_index items i).
Proof.
  unfold list_index. destruct (nth_error items i);
    [apply no_write_ret | apply no_write_raise].
Qed.

Lemma no_write_contact_key (x : contact) : no_write dbs (contact_key x).
Proof.
  unfold contact_key. destruct (assoc "last_name" x); [|apply no_write_raise].
  destruct (assoc "first_name" x); [apply no_write_ret | apply no_write_raise].
Qed.

Lemma no_write_for_each {A B : Type} (items : list A) (body : A -> M B) :
  (forall x, no_write dbs (body x)) -> no_write dbs (for_each items body).
Proof.
  intro H. induction items as [|x r IH]; cbn [for_each]; [apply no_write_ret|].
  apply no_write_bind; [apply H|]. intro y.
  apply no_write_bind; [apply IH|]. intro ys. apply no_write_ret.
Qed.

Lemma no_write_index_files (docs_dir : string) (files : list string) :
  forall index, no_write dbs (index_files docs_dir files index).
Proof.
  induction files as [|file rest IH]; intro index; cbn [index_files].
  - apply no_write_ret.
  - destruct (endswith file ".md"); [|apply IH]. cbv zeta.
    apply no_write_bind; [apply no_write_enforce|]. intros _.
    apply no_write_bind; [apply no_write_open_read|]. intro text.
    destruct (first_heading (readlines text)); apply IH.
Qed.

Lemma no_write_if {A : Type} (c : bool) (m1 m2 : M A) :
  no_write dbs m1 -> no_write dbs m2 -> no_write dbs (if c then m1 else m2).
Proof. now destruct c. Qed.

Lemma last_write_if {A : Type} (p : string) (c : bool) (m1 m2 : M A) :
  last_write dbs p m1 -> last_write dbs p m2 ->
  last_write dbs p (if c then m1 else m2).
Proof. now destruct c. Qed.

End Writes.

Ltac no_write_step :=
  first
    [ apply no_write_ret
    | apply no_write_raise
    | apply no_write_enforce
    | apply no_write_exists
    | apply no_write_listdir
    | apply no_write_getmtime
    | apply no_write_open_read
    | apply no_write_read_node; reflexivity
    | apply no_write_connect; left; reflexivity
    | apply no_write_library
    | apply no_write_list_index
    | apply no_write_contact_key
    | apply no_write_index_files
    | apply no_write_for_each; intro
    | apply no_write_if
    | apply no_write_bind; [|intro] ].

Ltac last_write_step :=
  first
    [ apply last_write_open_write
    | apply last_write_if
    | apply last_write_bind; [solve [repeat no_write_step]|intro]
    | apply last_write_quiet; solve [repeat no_write_step] ].

(** X1: whatever the file system holds, the calls of a task that can create
    or change a file are at most one open for writing, which is the last
    call the task makes and is on the file [output_map] names for the task
    under the data root, and, for [total_gold_sales] only, the connection to
    [data/ticket-sales.db] before it. *)
Theorem task_writes_its_output_last (ext : externals) (task name : string)
  (run : M unit) (w : world) :
  assoc task (task_map ext) = Some run ->
  assoc task output_map = Some name ->
  writes_last (databases task) (os_path_join DATA_DIR name) (events (run w)).
Proof.
  intros Hrun Hname. revert w.
  change (last_write (databases task) (os_path_join DATA_DIR name) run).
  apply assoc_in in Hrun. unfold task_map in Hrun. cbn [In] in Hrun.
  repeat (destruct Hrun as [Hrun|Hrun];
          [inversion Hrun; subst; cbn in Hname; inversion Hname; subst;
           cbv zeta; unfold image_open; repeat last_write_step|]).
  contradiction.
Qed.

(** [recent_logs] connects to nothing; [total_gold_sales] connects to its
    database and to nothing else. *)
Lemma task_writes_its_output_last_witness :
  writes_last [] (os_path_join DATA_DIR "logs-recent.txt")
    (events (recent_logs sample_world))
  /\ writes_last ["data/ticket-sales.db"]
       (os_path_join DATA_DIR "ticket-sales-gold.txt")
       (events (total_gold_sales sample_ext sample_world)).
Proof.
  split.
  - exact (task_writes_its_output_last sample_ext "recent_logs"
             "logs-recent.txt" recent_logs sample_world eq_refl eq_refl).
  - exact (task_writes_its_output_last sample_ext "total_gold_sales"
             "ticket-sales-gold.txt" (total_gold_sales sample_ext)
             sample_world eq_refl eq_refl).
Defined.

(** ** A task that fails leaves the files as they were *)






















(** ** Inputs that are missing or malformed *)

Lemma read_node_missing (a : access) (p : string) (w : world) :
  lookup_path w p = Missing ->
  read_node a p w = Outcome [Access a p] (inl (FileNotFoundError p)) w.
Proof. intro H. unfold read_node. now rewrite H. Qed.

Lemma open_read_missing (p : string) (w : world) :
  lookup_path w p = Missing ->
  open_read p w = Outcome [Access OpenRead p] (inl (FileNotFoundError p)) w.
Proof.
  intro H. unfold open_read. apply bind_raise. now apply read_node_missing.
Qed.

Lemma listdir_missing (p : string) (w : world) :
  lookup_path w p = Missing ->
  os_listdir p w = Outcome [Access Listdir p] (inl (FileNotFoundError p)) w.
Proof. intro H. unfold os_listdir. now rewrite H. Qed.

(** X3: [sort_contacts], [recent_logs], [index_markdown],
    [extract_credit_card] and [similar_comments] have no fallback for a
    missing input: when the path each reads first names nothing, the task
    raises [FileNotFoundError], [run_task] answers 500 with the message that
    names the path, and the file system is left as it was. *)
Theorem missing_input_is_an_error (ext : externals) (task path : string)
  (w : world) :
  In (task, path) required_inputs ->
  lookup_path w path = Missing ->
  value (run_task ext task w) =
  inr (HTTPException 500
         ("[Errno 2] No such file or directory: '" ++ path ++ "'")%string)
  /\ after (run_task ext task w) = w.
Proof.
  intros Hin Hmissing.
  assert (Hfail :
            exists run ev,
              assoc task (task_map ext) = Some run
              /\ str_exn (FileNotFoundError path) =
                 ("[Errno 2] No such file or directory: '" ++ path ++ "'")%string
              /\ run w = Outcome ev (inl (FileNotFoundError path)) w).
  { unfold required_inputs in Hin. cbn [In] in Hin.
    destruct Hin as [H|[H|[H|[H|[H|[]]]]]]; inversion H; subst;
      eexists; eexists; (split; [reflexivity|split; [reflexivity|]]).
    - unfold sort_contacts. cbv zeta. do 2 run_guard.
      apply bind_raise. now apply open_read_missing.
    - unfold recent_logs. cbv zeta. run_guard.
      apply bind_raise. now apply listdir_missing.
    - unfold index_markdown. cbv zeta. run_guard.
      apply bind_raise. now apply listdir_missing.
    - unfold extract_credit_card, image_open. cbv zeta. do 2 run_guard.
      apply bind_raise. now apply read_node_missing.
    - unfold similar_comments. cbv zeta. do 2 run_guard.
      apply bind_raise. now apply open_read_missing. }
  destruct Hfail as (run & ev & Hrun & Hmsg & Hfail).
  unfold run_task. rewrite Hrun, try_except_outcome, Hfail.
  cbn [value after events]. now rewrite Hmsg.
Qed.

(** The sample directory has no [credit-card.png]. *)
Lemma missing_input_is_an_error_witness :
  value (run_task sample_ext "extract_credit_card" sample_world) =
  inr (HTTPException 500
         "[Errno 2] No such file or directory: 'data/credit-card.png'")
  /\ after (run_task sample_ext "extract_credit_card" sample_world) =
     sample_world.
Proof.
  apply (missing_input_is_an_error sample_ext "extract_credit_card"
           "data/credit-card.png" sample_world).
  - cbn. tauto.
  - reflexivity.
Defined.

(** The keys of the contacts up to the first one that lacks a name. *)
Lemma contact_keys_fail (contacts : list contact) (w : world) :
  existsb (fun x => negb (is_contact x)) contacts = true ->
  exists key,
    (key = "last_name" \/ key = "first_name")
    /\ for_each contacts (fun x => k <- contact_key x ;; ret (k, x)) w =
       Outcome [] (inl (KeyError key)) w.
Proof.
  induction contacts as [|x r IH]; intro H; [discriminate|].
  cbn [existsb] in H. cbn [for_each].
  destruct (is_contact x) eqn:Ex.
  - cbn [negb orb] in H. destruct (IH H) as (key & Hkey & Hr).
    exists key. split; [exact Hkey|].
    eapply bind_step; [now apply contact_key_names | | reflexivity].
    apply bind_raise. exact Hr.
  - clear IH H. unfold is_contact in Ex. unfold contact_key, bind.
    destruct (assoc "last_name" x).
    + destruct (assoc "first_name" x); [discriminate|].
      exists "first_name". split; [now right | reflexivity].
    + exists "last_name". split; [now left | reflexivity].
Qed.

(** X4: when a record of the contacts array lacks [last_name] or
    [first_name], [sort_contacts] raises [KeyError] on that key before it
    sorts or writes anything: the output file is not touched and [run_task]
    answers 500 with the key in quotes. *)
Theorem sort_contacts_missing_name (ext : externals) (w : world)
  (text : string) (contacts : list contact) :
  file_text w "data/contacts.json" = Some text ->
  json_load ext (universal_newlines text) = inr contacts ->
  existsb (fun x => negb (is_contact x)) contacts = true ->
  exists key,
    (key = "last_name" \/ key = "first_name")
    /\ sort_contacts ext w =
       Outcome
         [Guard "data/contacts.json"; Guard "data/contacts-sorted.json";
          Access OpenRead "data/contacts.json"]
         (inl (KeyError key)) w
    /\ run_task ext "sort_contacts" w =
       Outcome
         [Guard "data/contacts.json"; Guard "data/contacts-sorted.json";
          Access OpenRead "data/contacts.json"]
         (inr (HTTPException 500 ("'" ++ key ++ "'")%string)) w.
Proof.
  intros Htext Hload Hbad.
  destruct (contact_keys_fail contacts w Hbad) as (key & Hkey & Hkeys).
  exists key. split; [exact Hkey|].
  assert (Hrun : sort_contacts ext w =
                 Outcome
                   [Guard "data/contacts.json"; Guard "data/contacts-sorted.json";
                    Access OpenRead "data/contacts.json"]
                   (inl (KeyError key)) w).
  { unfold sort_contacts.
    change (os_path_join DATA_DIR "contacts.json") with "data/contacts.json".
    change (os_path_join DATA_DIR "contacts-sorted.json")
      with "data/contacts-sorted.json".
    cbv zeta. do 2 run_guard. run_with (open_read_file _ _ _ Htext).
    rewrite Hload. eapply bind_step; [reflexivity | | reflexivity].
    apply bind_raise. exact Hkeys. }
  split; [exact Hrun|].
  change (run_task ext "sort_contacts" w)
    with (try_except (sort_contacts ext ;; ret (Json [("status", "success")]))
            (fun e => ret (HTTPException 500 (str_exn e))) w).
  rewrite try_except_outcome, Hrun. cbn [value after events].
  now destruct Hkey as [->| ->].
Qed.

(** The second record of the second contacts file has no [last_name]. *)
Lemma sort_contacts_missing_name_witness :
  exists key,
    (key = "last_name" \/ key = "first_name")
    /\ sort_contacts second_ext second_world =
       Outcome
         [Guard "data/contacts.json"; Guard "data/contacts-sorted.json";
          Access OpenRead "data/contacts.json"]
         (inl (KeyError key)) second_world
    /\ run_task second_ext "sort_contacts" second_world =
       Outcome
         [Guard "data/contacts.json"; Guard "data/contacts-sorted.json";
          Access OpenRead "data/contacts.json"]
         (inr (HTTPException 500 ("'" ++ key ++ "'")%string)) second_world.
Proof.
  exact (sort_contacts_missing_name second_ext second_world "nameless" _
           eq_refl eq_refl eq_refl).
Defined.

(** ** The guard and the retrieval handler *)

Lemma prefix_split (p : string) :
  forall s, String.prefix p s = true <-> exists rest, s = (p ++ rest)%string.
Proof.
  induction p as [|a p IH]; intro s.
  - split; [intros _; now exists s | intros _; now destruct s].
  - destruct s as [|b s]; cbn [String.prefix].
    + split; [discriminate | intros [rest H]; discriminate H].
    + destruct (ascii_dec a b) as [<-|Hne].
      * rewrite IH. split; intros [rest H]; exists rest.
        -- now rewrite H.
        -- now inversion H.
      * split; [discriminate | intros [rest H]; inversion H; congruence].
Qed.

(** X5: the guard is a test on the text of the path and nothing else: it
    lets a path through exactly when the path is the data root followed by
    any text at all, it records the call, and it leaves the file system
    alone; it never looks at what the path names. *)
Theorem enforce_security_is_textual (p : string) (w : world) :
  (value (enforce_security p w) = inr tt <->
   exists rest, p = (DATA_DIR ++ rest)%string)
  /\ (value (enforce_security p w) <> inr tt ->
      value (enforce_security p w) =
      inl (PermissionError
             ("Access denied: " ++ p ++ " is outside " ++ DATA_DIR)%string))
  /\ events (enforce_security p w) = [Guard p]
  /\ after (enforce_security p w) = w.
Proof.
  destruct (startswith p DATA_DIR) eqn:E.
  - rewrite (enforce_security_ok p w E). cbn [events value after].
    repeat split; try congruence.
    intros _. now apply prefix_split.
  - rewrite (enforce_security_denied p w E). cbn [events value after].
    repeat split; try discriminate.
    intros H. apply prefix_split in H. unfold startswith in E. congruence.
Qed.

(** X6: [get_task_output] never reads the file system and never returns an
    output: it answers 500 with the [NameError] on the eight known names
    and 400 on every other name, on every file system. *)
Theorem get_task_output_never_reads (task : string) (w : world) :
  get_task_output task w =
  Outcome []
    (inr (if existsb (String.eqb task) known_tasks
          then HTTPException 500 "name 'read_output_file' is not defined"
          else HTTPException 400 "Invalid task"))
    w.
Proof.
  destruct (existsb (String.eqb task) known_tasks) eqn:E.
  - apply existsb_exists in E. destruct E as (k & Hk & E).
    apply String.eqb_eq in E. subst k. rewrite <- output_map_keys in Hk.
    destruct (assoc_some _ _ Hk) as [name Hname].
    unfold get_task_output, get_task_output_with. now rewrite Hname.
  - unfold get_task_output, get_task_output_with. rewrite assoc_none; [reflexivity|].
    rewrite output_map_keys. intro Hk.
    assert (existsb (String.eqb task) known_tasks = true); [|congruence].
    apply existsb_exists. exists task. split; [exact Hk | apply String.eqb_refl].
Qed.

(** ** Whitespace around a date *)

Lemma lstrip_space (pre s : string) :
  all_space pre = true -> lstrip (pre ++ s) = lstrip s.
Proof.
  induction pre as [|c r IH]; intro H; [reflexivity|].
  cbn [all_space] in H. apply andb_true_iff in H. destruct H as [Hc Hr].
  cbn [append lstrip]. rewrite Hc. now apply IH.
Qed.

Lemma rstrip_all_space (s : string) : all_space s = true -> rstrip s = EmptyString.
Proof.
  induction s as [|c r IH]; intro H; [reflexivity|].
  cbn [all_space] in H. apply andb_true_iff in H. destruct H as [Hc Hr].
  cbn [rstrip]. now rewrite (IH Hr), Hc.
Qed.

Lemma rstrip_space (s post : string) :
  all_space post = true -> rstrip (s ++ post) = rstrip s.
Proof.
  intro H. induction s as [|c r IH].
  - now apply rstrip_all_space.
  - cbn [append rstrip]. now rewrite IH.
Qed.

Lemma lstrip_all_space (s : string) : all_space s = true -> lstrip s = EmptyString.
Proof.
  induction s as [|c r IH]; intro H; [reflexivity|].
  cbn [all_space] in H. apply andb_true_iff in H. destruct H as [Hc Hr].
  cbn [lstrip]. rewrite Hc. now apply IH.
Qed.

Lemma strip_padding (pre s post : string) :
  all_space pre = true -> all_space post = true ->
  strip (pre ++ s ++ post) = strip s.
Proof.
  intros Hpre Hpost. unfold strip. rewrite (lstrip_space _ _ Hpre).
  induction s as [|c r IH].
  - cbn [append lstrip]. now rewrite (lstrip_all_space _ Hpost).
  - cbn [append lstrip]. destruct (isspace c); [exact IH|].
    now apply (rstrip_space (String c r)).
Qed.

(** X7: whitespace before and after a date never changes what [parse_date]
    returns, whatever [strptime] does; in particular a line read with its
    line feed parses as the date alone. *)
Theorem parse_date_ignores_padding (ext : externals) (pre s post : string) :
  all_space pre = true ->
  all_space post = true ->
  parse_date ext (pre ++ s ++ post) = parse_date ext s
  /\ is_wednesday ext (pre ++ s ++ post) = is_wednesday ext s.
Proof.
  intros Hpre Hpost.
  assert (H : parse_date ext (pre ++ s ++ post) = parse_date ext s).
  { unfold parse_date. cbv zeta. now rewrite strip_padding. }
  split; [exact H|]. unfold is_wednesday. now rewrite H.
Qed.

(** A date between two blanks and before a line feed. *)
Lemma parse_date_ignores_padding_witness :
  parse_date sample_ext ("  " ++ "2024-01-03" ++ (" " ++ NL)) =
  parse_date sample_ext "2024-01-03"
  /\ is_wednesday sample_ext ("  " ++ "2024-01-03" ++ (" " ++ NL)) =
     is_wednesday sample_ext "2024-01-03".
Proof.
  exact (parse_date_ignores_padding sample_ext "  " "2024-01-03" (" " ++ NL)
           eq_refl eq_refl).
Defined.

(** ** [email_sender] and [extract_credit_card] *)

Lemma all_digits_only (s : string) : all_digits (digits_only s) = true.
Proof.
  induction s as [|c r IH]; [reflexivity|]. cbn [digits_only].
  destruct (isdigit c) eqn:E; [|exact IH]. cbn [all_digits]. now rewrite E.
Qed.

(** X8: with a writable output path, [email_sender] does not fail for want
    of an address: a missing [email.txt] and a text without a match both
    give an empty line, and a match gives the address on one line.  It fails
    when [email.txt] is a directory: the path exists, opening it raises
    [IsADirectoryError] and nothing is written. *)
Theorem email_sender_spec (ext : externals) (w : world) :
  writable w "data/email-sender.txt" = true ->
  ((forall n, lookup_path w "data/email.txt" <> Found n) ->
   exists w',
     email_sender ext w =
     Outcome
       [Guard "data/email.txt"; Guard "data/email-sender.txt";
        Access Exists "data/email.txt"; Access OpenWrite "data/email-sender.txt"]
       (inr tt) w'
     /\ file_text w' "data/email-sender.txt" = Some NL)
  /\ (forall text,
        file_text w "data/email.txt" = Some text ->
        exists w',
          email_sender ext w =
          Outcome
            [Guard "data/email.txt"; Guard "data/email-sender.txt";
             Access Exists "data/email.txt"; Access OpenRead "data/email.txt";
             Access OpenWrite "data/email-sender.txt"]
            (inr tt) w'
          /\ file_text w' "data/email-sender.txt" =
             Some match search_sender ext (strip (universal_newlines text)) with
                  | Some addr => (addr ++ NL)%string
                  | None => NL
                  end)
  /\ (forall t es,
        lookup_path w "data/email.txt" = Found (Dir t es) ->
        email_sender ext w =
        Outcome
          [Guard "data/email.txt"; Guard "data/email-sender.txt";
           Access Exists "data/email.txt"; Access OpenRead "data/email.txt"]
          (inl (IsADirectoryError "data/email.txt")) w).
Proof.
  intro Hout. split; [|split].
  - intro Habsent.
    destruct (open_write_ok "data/email-sender.txt" ("" ++ NL) w Hout)
      as (w' & Hwrite & Hread).
    exists w'. split; [|exact Hread].
    unfold email_sender. cbv zeta. do 2 run_guard.
    run_with (exists_absent _ _ Habsent).
    eapply bind_step; [reflexivity | exact Hwrite | reflexivity].
  - intros text Htext.
    set (addr := match search_sender ext (strip (universal_newlines text)) with
                 | Some addr => addr
                 | None => EmptyString
                 end).
    destruct (open_write_ok "data/email-sender.txt" (addr ++ NL) w Hout)
      as (w' & Hwrite & Hread).
    exists w'. split.
    + destruct (file_text_found _ _ _ Htext) as [t Hfound].
      unfold email_sender. cbv zeta. do 2 run_guard.
      run_with (exists_found _ _ _ Hfound).
      assert (Hbody :
        (text <- open_read "data/email.txt" ;;
         ret match search_sender ext (strip text) with
             | Some addr => addr
             | None => EmptyString
             end) w =
        Outcome [Access OpenRead "data/email.txt"] (inr addr) w).
      { eapply bind_step; [exact (open_read_file _ _ _ Htext) | reflexivity
                          | reflexivity]. }
      eapply bind_step; [exact Hbody | exact Hwrite | reflexivity].
    + rewrite Hread. unfold addr.
      now destruct (search_sender ext (strip (universal_newlines text))).
  - intros t es Hdir.
    assert (Hopen :
      open_read "data/email.txt" w =
      Outcome [Access OpenRead "data/email.txt"]
        (inl (IsADirectoryError "data/email.txt")) w).
    { unfold open_read, bind, read_node. now rewrite Hdir. }
    unfold email_sender. cbv zeta. do 2 run_guard.
    run_with (exists_found _ _ _ Hdir).
    apply bind_raise. apply bind_raise. exact Hopen.
Qed.

(** The sample directory has no [email.txt], the second one has, and in
    the third [email.txt] is a directory. *)
Lemma email_sender_spec_witness :
  (exists w',
     email_sender sample_ext sample_world =
     Outcome
       [Guard "data/email.txt"; Guard "data/email-sender.txt";
        Access Exists "data/email.txt"; Access OpenWrite "data/email-sender.txt"]
       (inr tt) w'
     /\ file_text w' "data/email-sender.txt" = Some NL)
  /\ (exists w',
        email_sender second_ext second_world =
        Outcome
          [Guard "data/email.txt"; Guard "data/email-sender.txt";
           Access Exists "data/email.txt"; Access OpenRead "data/email.txt";
           Access OpenWrite "data/email-sender.txt"]
          (inr tt) w'
        /\ file_text w' "data/email-sender.txt" = Some ("ann@x.org" ++ NL)%string)
  /\ email_sender sample_ext email_dir_world =
     Outcome
       [Guard "data/email.txt"; Guard "data/email-sender.txt";
        Access Exists "data/email.txt"; Access OpenRead "data/email.txt"]
       (inl (IsADirectoryError "data/email.txt")) email_dir_world.
Proof.
  split; [|split].
  - apply (proj1 (email_sender_spec sample_ext sample_world eq_refl)).
    intros n H. discriminate H.
  - exact (proj1 (proj2 (email_sender_spec second_ext second_world eq_refl))
             "From: Ann <ann@x.org>" eq_refl).
  - exact (proj2 (proj2 (email_sender_spec sample_ext email_dir_world eq_refl))
             9%Z [] eq_refl).
Defined.

(** X9: when the image can be read, [extract_credit_card] writes one line
    made of decimal digits only, whatever the OCR and the pattern return:
    the digits of the match, and the empty line when nothing matches. *)
Theorem extract_credit_card_spec (ext : externals) (w : world)
  (image text : string) :
  file_text w "data/credit-card.png" = Some image ->
  image_to_string ext image = inr text ->
  writable w "data/credit-card.txt" = true ->
  exists digits w',
    extract_credit_card ext w =
    Outcome
      [Guard "data/credit-card.png"; Guard "data/credit-card.txt";
       Access ImageOpen "data/credit-card.png";
       Access OpenWrite "data/credit-card.txt"]
      (inr tt) w'
    /\ file_text w' "data/credit-card.txt" = Some (digits ++ NL)%string
    /\ all_digits digits = true
    /\ digits = match search_card ext text with
                | Some matched => digits_only matched
                | None => EmptyString
                end.
Proof.
  intros Himage Hocr Hout.
  set (digits := match search_card ext text with
                 | Some matched => digits_only matched
                 | None => EmptyString
                 end).
  destruct (open_write_ok "data/credit-card.txt" (digits ++ NL) w Hout)
    as (w' & Hwrite & Hread).
  exists digits, w'. repeat split.
  - destruct (file_text_found _ _ _ Himage) as [t Hfound].
    unfold extract_credit_card, image_open. cbv zeta. do 2 run_guard.
    assert (Hopen :
      read_node ImageOpen "data/credit-card.png" w =
      Outcome [Access ImageOpen "data/credit-card.png"] (inr image) w).
    { unfold read_node. now rewrite Hfound. }
    eapply bind_step; [exact Hopen | | reflexivity].
    rewrite Hocr. eapply bind_step; [reflexivity | exact Hwrite | reflexivity].
  - exact Hread.
  - unfold digits. destruct (search_card ext text); [|reflexivity].
    apply all_digits_only.
Qed.

(** A match with blanks and a dash between the digit groups. *)
Lemma extract_credit_card_spec_witness :
  exists digits w',
    extract_credit_card second_ext second_world =
    Outcome
      [Guard "data/credit-card.png"; Guard "data/credit-card.txt";
       Access ImageOpen "data/credit-card.png";
       Access OpenWrite "data/credit-card.txt"]
      (inr tt) w'
    /\ file_text w' "data/credit-card.txt" = Some (digits ++ NL)%string
    /\ all_digits digits = true
    /\ digits = "4026399912345678".
Proof.
  exact (extract_credit_card_spec second_ext second_world "png"
           "card 4026 3999-1234 5678 exp" eq_refl eq_refl eq_refl).
Defined.

(** ** [index_markdown] *)

Lemma docs_components (name : string) :
  valid_name name = true ->
  components ("data/docs/" ++ name) = ["data"; "docs"; name].
Proof.
  intro H. pose proof (components_of_name _ H) as Hc. unfold components in *.
  cbn. exact (f_equal (fun l => "data" :: "docs" :: l) Hc).
Qed.

Lemma docs_entry_lookup (w : world) (m : Z) (es : list (string * node))
  (e : string * node) :
  valid_world w = true ->
  lookup_path w "data/docs" = Found (Dir m es) ->
  In e es ->
  lookup_path w ("data/docs/" ++ fst e) = Found (snd e).
Proof.
  intros Hw Hdir He.
  destruct (listed_names_valid _ _ _ _ Hw Hdir) as [Hd Hnames].
  unfold lookup_path in *. rewrite (docs_components _ (Hnames e He)).
  change ["data"; "docs"; fst e] with (["data"; "docs"] ++ [fst e]).
  rewrite walk_app.
  change (components "data/docs") with ["data"; "docs"] in Hdir.
  rewrite Hdir. cbn [walk]. now rewrite (assoc_distinct es e Hd He).
Qed.

Lemma assoc_app_other {V : Type} (k k' : string) (v : V)
  (l : list (string * V)) :
  k <> k' -> assoc k l = None -> assoc k (l ++ [(k', v)]) = None.
Proof.
  intros Hne. induction l as [|[k1 v1] r IH]; simpl.
  - destruct (String.eqb_spec k k'); [contradiction | reflexivity].
  - destruct (String.eqb k k1); [discriminate | exact IH].
Qed.

Lemma distinct_head (x : string) (r : list string) :
  distinct (x :: r) = true -> ~ In x r /\ distinct r = true.
Proof.
  cbn [distinct]. intro H. apply andb_true_iff in H. destruct H as [Hx Hr].
  split; [|exact Hr]. intro Hin. apply negb_true_iff in Hx.
  assert (existsb (String.eqb x) r = true); [|congruence].
  apply existsb_exists. exists x. split; [exact Hin | apply String.eqb_refl].
Qed.

(** The loop over a listing whose names are distinct and whose [*.md]
    entries are regular files: every such file is checked and read, in the
    order of the listing, and the ones with a heading are appended. *)
Lemma index_files_listing (w : world) (m : Z) (es : list (string * node)) :
  valid_world w = true ->
  lookup_path w "data/docs" = Found (Dir m es) ->
  forall rest index,
    incl rest es ->
    distinct (map fst rest) = true ->
    (forall e, In e rest -> assoc (fst e) index = None) ->
    (forall e, In e (md_entries rest) -> is_file (snd e) = true) ->
    index_files "data/docs" (map fst rest) index w =
    Outcome (flat_map doc_calls (md_entries rest))
      (inr (index ++ titles rest)) w.
Proof.
  intros Hw Hdir.
  destruct (listed_names_valid _ _ _ _ Hw Hdir) as [_ Hnames].
  induction rest as [|e rest IH]; intros index Hincl Hd Hnew Hfiles.
  - cbn. now rewrite app_nil_r.
  - destruct (distinct_head _ _ Hd) as [Hfresh Hd'].
    assert (Hin : In e es) by (apply Hincl; now left).
    assert (Hincl' : incl rest es) by (intros x Hx; apply Hincl; now right).
    cbn [map index_files]. unfold titles, md_entries. cbn [filter].
    fold (md_entries rest).
    destruct (endswith (fst e) ".md") eqn:Hmd.
    + cbv zeta. rewrite (docs_path _ (Hnames e Hin)).
      assert (Hfile : is_file (snd e) = true).
      { apply Hfiles. unfold md_entries. cbn [filter]. rewrite Hmd. now left. }
      pose proof (docs_entry_lookup _ _ _ _ Hw Hdir Hin) as Hlook.
      destruct e as [name [t d|t sub]]; [|discriminate]. cbn [fst snd] in *.
      assert (Htext : file_text w ("data/docs/" ++ name) = Some d).
      { unfold file_text. now rewrite Hlook. }
      eapply bind_step;
        [apply enforce_security_ok; now apply (prefix_append "data/docs/")
        | | reflexivity].
      eapply bind_step; [exact (open_read_file _ _ _ Htext) | | reflexivity].
      cbn [flat_map]. unfold heading_of at 1. cbn [fst snd node_data].
      destruct (first_heading (readlines (universal_newlines d))) as [title|].
      * pose proof (Hnew (name, File t d) (or_introl eq_refl)) as Hkey.
        cbn [fst] in Hkey. unfold dict_set. rewrite Hkey.
        rewrite IH; [ | exact Hincl' | exact Hd' | | ].
        -- unfold doc_calls at 2, titles. cbn [fst app]. now rewrite <- app_assoc.
        -- intros e' He'. apply assoc_app_other.
           ++ intros E. apply Hfresh. rewrite <- E. now apply in_map.
           ++ apply Hnew. now right.
        -- intros e' He'. apply Hfiles. unfold md_entries. cbn [filter fst].
           rewrite Hmd. now right.
      * rewrite IH; [ | exact Hincl' | exact Hd' | | ].
        -- reflexivity.
        -- intros e' He'. apply Hnew. now right.
        -- intros e' He'. apply Hfiles. unfold md_entries. cbn [filter fst].
           rewrite Hmd. now right.
    + apply IH; [exact Hincl' | exact Hd' | | ].
      * intros e' He'. apply Hnew. now right.
      * intros e' He'. apply Hfiles. unfold md_entries. cbn [filter].
        rewrite Hmd. exact He'.
Qed.

(** X10: in a well-formed file system whose [data/docs] is a directory with
    regular files as [*.md] entries, [index_markdown] checks and reads every
    [*.md] entry of the directory itself, in listing order, and writes the
    index that maps each one that has a line starting with [# ] to the
    stripped rest of the first such line; files without such a line, other
    entries and subdirectories are left out. *)
Theorem index_markdown_spec (ext : externals) (w : world) (m : Z)
  (es : list (string * node)) :
  valid_world w = true ->
  lookup_path w "data/docs" = Found (Dir m es) ->
  (forall e, In e (md_entries es) -> is_file (snd e) = true) ->
  writable w "data/docs/index.json" = true ->
  exists w',
    index_markdown ext w =
    Outcome
      ([Guard "data/docs/index.json"; Access Listdir "data/docs"]
       ++ flat_map doc_calls (md_entries es)
       ++ [Access OpenWrite "data/docs/index.json"])
      (inr tt) w'
    /\ file_text w' "data/docs/index.json" = Some (json_dump_index ext (titles es)).
Proof.
  intros Hw Hdir Hfiles Hout.
  destruct (listed_names_valid _ _ _ _ Hw Hdir) as [Hd _].
  destruct (open_write_ok "data/docs/index.json"
              (json_dump_index ext (titles es)) w Hout) as (w' & Hwrite & Hread).
  exists w'. split; [|exact Hread].
  unfold index_markdown. cbv zeta. run_guard.
  change (os_path_join DATA_DIR "docs") with "data/docs".
  run_with (listdir_dir _ _ _ _ Hdir).
  pose proof (index_files_listing w m es Hw Hdir es [] (incl_refl es) Hd
                (fun _ _ => eq_refl) Hfiles) as Hloop.
  cbn [app] in Hloop.
  eapply bind_step; [exact Hloop | exact Hwrite | reflexivity].
Qed.

(** The second data directory: two of its three [*.md] files have a
    heading; the picture is not read. *)
Lemma index_markdown_spec_witness :
  exists w',
    index_markdown second_ext second_world =
    Outcome
      [Guard "data/docs/index.json"; Access Listdir "data/docs";
       Guard "data/docs/readme.md"; Access OpenRead "data/docs/readme.md";
       Guard "data/docs/notes.md"; Access OpenRead "data/docs/notes.md";
       Guard "data/docs/guide.md"; Access OpenRead "data/docs/guide.md";
       Access OpenWrite "data/docs/index.json"]
      (inr tt) w'
    /\ file_text w' "data/docs/index.json" =
       Some (sample_render [("readme.md", "Title"); ("guide.md", "Guide")]).
Proof.
  refine (index_markdown_spec second_ext second_world 3 _ eq_refl eq_refl _ eq_refl).
  intros e He. cbn in He.
  destruct He as [<-|[<-|[<-|[]]]]; reflexivity.
Defined.

(** ** [similar_comments] *)

Lemma all_lines_lf_last (t : string) :
  forall cur,
    has_lf cur = false ->
    Forall (fun l => lf_only_last l = true) (lines_from cur t).
Proof.
  induction t as [|c r IH]; intros cur H; cbn [lines_from].
  - destruct cur; [constructor|]. constructor; [|constructor].
    apply lf_only_last_plain. now rewrite has_lf_rev_string.
  - destruct (Ascii.eqb c LF) eqn:E.
    + constructor; [|now apply IH].
      apply Ascii.eqb_eq in E. subst c. unfold rev_string.
      cbn [rev_string_onto]. rewrite rev_string_onto_append.
      apply lf_only_last_line. now rewrite has_lf_rev_string.
    + apply IH. cbn [has_lf]. now rewrite E.
Qed.

(** Every comment is a stripped, non-empty piece of one line. *)
Lemma comments_of_plain (text c : string) :
  In c (comments_of text) -> has_lf c = false /\ c <> EmptyString.
Proof.
  unfold comments_of. intro H. apply in_map_iff in H.
  destruct H as (line & <- & Hline). apply filter_In in Hline.
  destruct Hline as [Hin Htruthy]. split.
  - unfold strip. apply no_lf_rstrip, lf_only_last_lstrip.
    pose proof (all_lines_lf_last text "" eq_refl) as Hall.
    rewrite Forall_forall in Hall. now apply Hall.
  - intro E. rewrite E in Htruthy. discriminate.
Qed.

(** X11: with at least two non-blank comment lines and the pair of
    positions the similarity search returns, [similar_comments] writes
    exactly two lines, the comments at these positions, each non-empty and
    stripped of the whitespace around it. *)
Theorem similar_comments_writes_pair (ext : externals) (w : world)
  (text : string) (i j : nat) :
  file_text w "data/comments.txt" = Some text ->
  (2 <= List.length (comments_of (universal_newlines text)))%nat ->
  most_similar ext (comments_of (universal_newlines text)) = inr (i, j) ->
  (i < List.length (comments_of (universal_newlines text)))%nat ->
  (j < List.length (comments_of (universal_newlines text)))%nat ->
  writable w "data/comments-similar.txt" = true ->
  exists c1 c2 w',
    nth_error (comments_of (universal_newlines text)) i = Some c1
    /\ nth_error (comments_of (universal_newlines text)) j = Some c2
    /\ similar_comments ext w =
       Outcome
         [Guard "data/comments.txt"; Guard "data/comments-similar.txt";
          Access OpenRead "data/comments.txt";
          Access OpenWrite "data/comments-similar.txt"]
         (inr tt) w'
    /\ output_lines w' "data/comments-similar.txt" =
       [(c1 ++ NL)%string; (c2 ++ NL)%string]
    /\ c1 <> EmptyString /\ c2 <> EmptyString.
Proof.
  intros Htext Hlen Hpair Hi Hj Hout.
  set (comments := comments_of (universal_newlines text)) in *.
  destruct (nth_error comments i) as [c1|] eqn:E1;
    [|apply nth_error_None in E1; lia].
  destruct (nth_error comments j) as [c2|] eqn:E2;
    [|apply nth_error_None in E2; lia].
  destruct (comments_of_plain _ _ (nth_error_In _ _ E1)) as [Hlf1 Hne1].
  destruct (comments_of_plain _ _ (nth_error_In _ _ E2)) as [Hlf2 Hne2].
  destruct (open_write_ok "data/comments-similar.txt"
              (c1 ++ NL ++ c2 ++ NL) w Hout) as (w' & Hwrite & Hread).
  exists c1, c2, w'. repeat split; try assumption.
  - unfold similar_comments. cbv zeta. do 2 run_guard.
    run_with (open_read_file _ _ _ Htext).
    fold (comments_of (universal_newlines text)). fold comments.
    destruct (Nat.ltb_spec (List.length comments) 2) as [Hlt|_]; [lia|].
    rewrite Hpair. cbn [library fst snd].
    eapply bind_step; [reflexivity | | reflexivity].
    cbn [fst snd]. unfold list_index. rewrite E1, E2.
    eapply bind_step; [reflexivity | | reflexivity].
    eapply bind_step; [reflexivity | exact Hwrite | reflexivity].
  - unfold output_lines. rewrite Hread.
    rewrite (readlines_line _ _ Hlf1).
    rewrite <- (append_empty_r (c2 ++ NL)), append_assoc.
    now rewrite (readlines_line _ _ Hlf2).
Qed.

(** Three comments among four lines, the first and the third reported. *)
Lemma similar_comments_writes_pair_witness :
  exists c1 c2 w',
    nth_error ["first comment"; "second one"; "third"] 0 = Some c1
    /\ nth_error ["first comment"; "second one"; "third"] 2 = Some c2
    /\ similar_comments second_ext second_world =
       Outcome
         [Guard "data/comments.txt"; Guard "data/comments-similar.txt";
          Access OpenRead "data/comments.txt";
          Access OpenWrite "data/comments-similar.txt"]
         (inr tt) w'
    /\ output_lines w' "data/comments-similar.txt" =
       [(c1 ++ NL)%string; (c2 ++ NL)%string]
    /\ c1 <> EmptyString /\ c2 <> EmptyString.
Proof.
  refine (similar_comments_writes_pair second_ext second_world
            ("first comment" ++ NL ++ NL ++ " second one " ++ NL
             ++ "third" ++ NL) 0 2 eq_refl _ eq_refl _ _ eq_refl);
    vm_compute; lia.
Defined.

(** ** A task changes no file but its own *)

Lemma assoc_replace_other {V : Type} (k k' : string) (v : V)
  (l : list (string * V)) :
  k' <> k -> assoc k' (replace k v l) = assoc k' l.
Proof.
  intro Hne. induction l as [|[k1 v1] r IH]; [reflexivity|]. cbn [replace].
  destruct (String.eqb_spec k k1) as [<-|_]; cbn [assoc].
  - destruct (String.eqb_spec k' k); [contradiction | reflexivity].
  - now rewrite IH.
Qed.

Lemma assoc_app_last_other {V : Type} (k k' : string) (v : V)
  (l : list (string * V)) :
  k' <> k -> assoc k' (l ++ [(k, v)]) = assoc k' l.
Proof.
  intro Hne. induction l as [|[k1 v1] r IH]; cbn [app assoc].
  - destruct (String.eqb_spec k' k); [contradiction | reflexivity].
  - now rewrite IH.
Qed.

Lemma text_at_below_file (t : Z) (d c : string) (cs : list string) :
  text_at (File t d) (c :: cs) = None.
Proof. reflexivity. Qed.

(** Writing a file changes the text found at no other path. *)
Lemma store_frame (comps : list string) :
  forall n t d n' comps',
    store n comps t d = inr n' ->
    comps' <> comps ->
    text_at n' comps' = text_at n comps'.
Proof.
  induction comps as [|c cs IH]; intros n t d n' comps' H Hne; [discriminate|].
  destruct n as [|m es]; [discriminate|].
  destruct cs as [|c2 cs2].
  - cbn [store] in H.
    destruct (assoc c es) as [[t0 d0|]|] eqn:E; inversion H; subst;
      destruct comps' as [|c' cs']; try reflexivity; unfold text_at;
      cbn [walk]; destruct (String.eqb_spec c' c) as [->|Hc].
    + rewrite assoc_replace by congruence. rewrite E.
      destruct cs' as [|c3 cs3]; [congruence | reflexivity].
    + now rewrite assoc_replace_other.
    + rewrite assoc_app_new by assumption. rewrite E.
      destruct cs' as [|c3 cs3]; [congruence | reflexivity].
    + now rewrite assoc_app_last_other.
  - rewrite store_deeper in H.
    destruct (assoc c es) as [n1|] eqn:E; [|discriminate].
    destruct (store n1 (c2 :: cs2) t d) as [e|n2] eqn:S; inversion H; subst.
    destruct comps' as [|c' cs']; [reflexivity|]. unfold text_at.
    cbn [walk]. destruct (String.eqb_spec c' c) as [->|Hc].
    + rewrite assoc_replace by congruence. rewrite E.
      apply (IH _ _ _ _ cs' S). congruence.
    + now rewrite assoc_replace_other.
Qed.











(** ** Ties in [recent_logs] *)

(** What [recent_logs] does in a well-formed file system. *)
Lemma recent_logs_runs (w : world) (m : Z) (es : list (string * node)) :
  valid_world w = true ->
  lookup_path w "data/logs" = Found (Dir m es) ->
  forallb (fun e => is_file (snd e)) (log_entries es) = true ->
  writable w "data/logs-recent.txt" = true ->
  exists tr w',
    recent_logs w = Outcome tr (inr tt) w'
    /\ file_text w' "data/logs-recent.txt" =
       Some (join NL (map first_line (firstn 10 (ranked_logs es))) ++ NL)%string.
Proof.
  intros Hw Hdir Hfiles Hout.
  set (mtime := fun e : string * node => node_mtime (snd e)).
  set (path := fun e : string * node => ("data/logs/" ++ fst e)%string).
  assert (Hlisted : forall e, In e (log_entries es) -> In e es).
  { intros e He. unfold log_entries in He. now apply filter_In in He. }
  destruct (open_write_ok "data/logs-recent.txt"
              (join NL (map first_line (firstn 10 (ranked_logs es))) ++ NL)
              w Hout) as (w' & Hwrite & Hread).
  eexists. exists w'. split; [|exact Hread].
  unfold recent_logs.
  change (os_path_join DATA_DIR "logs") with "data/logs".
  change (os_path_join DATA_DIR "logs-recent.txt") with "data/logs-recent.txt".
  cbv zeta. run_guard. run_with (listdir_dir _ _ _ _ Hdir).
  rewrite (log_paths _ _ _ Hw Hdir).
  assert (Hkeyed :
            for_each (map path (log_entries es))
              (fun p => t <- os_path_getmtime p ;; ret (t, p)) w =
            Outcome
              (map (fun e => Access Getmtime (path e)) (log_entries es))
              (inr (map (fun e => (mtime e, path e)) (log_entries es))) w).
  { rewrite for_each_map.
    rewrite (for_each_reads _ _ w (fun e => [Access Getmtime (path e)])
               (fun e => (mtime e, path e))).
    - reflexivity.
    - intros e He. apply getmtime_found.
      apply (logs_entry_lookup _ _ _ _ Hw Hdir), Hlisted, He. }
  fold path. run_with Hkeyed.
  rewrite (py_sorted_map Z.ltb fst (fun e => (mtime e, path e))).
  cbn [fst]. fold (ranked_logs es). rewrite map_map. cbn [snd].
  rewrite firstn_map.
  assert (Hlines :
            for_each (map path (firstn 10 (ranked_logs es)))
              (fun log =>
                 enforce_security log ;;
                 text <- open_read log ;;
                 ret (strip (readline text))) w =
            Outcome
              (flat_map (fun e => [Guard (path e); Access OpenRead (path e)])
                 (firstn 10 (ranked_logs es)))
              (inr (map first_line (firstn 10 (ranked_logs es)))) w).
  { rewrite for_each_map. apply for_each_reads.
    intros e He. apply in_firstn in He.
    apply (Permutation_in _
             (Permutation_sym (py_sorted_perm Z.ltb mtime true _))) in He.
    rewrite forallb_forall in Hfiles. pose proof (Hfiles e He) as Hfile.
    pose proof (logs_entry_lookup _ _ _ e Hw Hdir (Hlisted e He)) as Hlook.
    destruct e as [name [t d|]]; [|discriminate].
    apply (read_first_line _ _ t d); [reflexivity | exact Hlook]. }
  eapply bind_step; [exact Hlines | exact Hwrite | reflexivity].
Qed.

(** X13: [recent_logs] breaks ties by the listing: the lines it writes are
    the first lines of the first ten entries of a ranking in which the
    [*.log] files last modified at the same time stand in the order in which
    the directory lists them. *)
Theorem recent_logs_ties (w : world) (m : Z) (es : list (string * node)) :
  valid_world w = true ->
  lookup_path w "data/logs" = Found (Dir m es) ->
  forallb (fun e => is_file (snd e)) (log_entries es) = true ->
  writable w "data/logs-recent.txt" = true ->
  (exists tr w',
     recent_logs w = Outcome tr (inr tt) w'
     /\ file_text w' "data/logs-recent.txt" =
        Some (join NL (map first_line (firstn 10 (ranked_logs es))) ++ NL)%string)
  /\ forall t,
       filter (modified_at t) (ranked_logs es) =
       filter (modified_at t) (log_entries es).
Proof.
  intros Hw Hdir Hfiles Hout. split; [now apply (recent_logs_runs w m es)|].
  intro t. unfold ranked_logs. apply py_sorted_stable.
  intros a b Ha Hb. unfold modified_at in Ha, Hb.
  apply Z.eqb_eq in Ha, Hb. apply Z.ltb_ge. lia.
Qed.

(** Three logs, two of them modified at the same time. *)
Lemma recent_logs_ties_witness :
  (exists tr w',
     recent_logs tied_world = Outcome tr (inr tt) w'
     /\ file_text w' "data/logs-recent.txt" =
        Some ("one" ++ NL ++ "two" ++ NL ++ "zero" ++ NL)%string)
  /\ forall t,
       filter (modified_at t) (ranked_logs tied_logs) =
       filter (modified_at t) (log_entries tied_logs).
Proof.
  exact (recent_logs_ties tied_world 9 tied_logs eq_refl eq_refl eq_refl eq_refl).
Defined.

(** ** [total_gold_sales] without a database *)

(** X14: [total_gold_sales] does not test that the database exists: in an
    existing data directory without [ticket-sales.db], connecting creates
    the file, empty; when the query then fails on it, [run_task] answers 500
    with the message of the library, the output file is not written and the
    empty database file stays behind. *)
Theorem total_gold_sales_creates_database (ext : externals) (w : world)
  (msg : string) :
  lookup_path w "data/ticket-sales.db" = Missing ->
  writable w "data/ticket-sales.db" = true ->
  sqlite_tickets ext EmptyString = inl msg ->
  exists w',
    run_task ext "total_gold_sales" w =
    Outcome
      [Guard "data/ticket-sales.db"; Guard "data/ticket-sales-gold.txt";
       Access Connect "data/ticket-sales.db"]
      (inr (HTTPException 500 msg)) w'
    /\ file_text w "data/ticket-sales.db" = None
    /\ file_text w' "data/ticket-sales.db" = Some EmptyString
    /\ file_text w' "data/ticket-sales-gold.txt" =
       file_text w "data/ticket-sales-gold.txt".
Proof.
  intros Hmiss Hout Hquery.
  unfold writable in Hout.
  destruct (store (cwd w) (components "data/ticket-sales.db") 0 EmptyString)
    as [|n0] eqn:S0; [discriminate|].
  destruct (store_any_data _ _ _ _ (clock w) EmptyString _ S0) as [n1 S1].
  assert (Hconnect :
    sqlite3_connect "data/ticket-sales.db" w =
    Outcome [Access Connect "data/ticket-sales.db"] (inr EmptyString)
      (World n1 (clock w))).
  { unfold sqlite3_connect. now rewrite Hmiss, S1. }
  assert (Hrun :
    total_gold_sales ext w =
    Outcome
      [Guard "data/ticket-sales.db"; Guard "data/ticket-sales-gold.txt";
       Access Connect "data/ticket-sales.db"]
      (inl (LibraryError msg)) (World n1 (clock w))).
  { unfold total_gold_sales. cbv zeta. do 2 run_guard.
    eapply bind_step; [exact Hconnect | | reflexivity].
    apply bind_raise. now rewrite Hquery. }
  exists (World n1 (clock w)). repeat split.
  - unfold run_task. cbn [task_map assoc String.eqb Ascii.eqb Bool.eqb].
    now rewrite try_except_outcome, Hrun.
  - unfold file_text. now rewrite Hmiss.
  - unfold file_text, lookup_path. cbn [cwd].
    now rewrite (walk_store _ _ _ _ _ S1).
  - unfold file_text, lookup_path. cbn [cwd].
    apply (store_frame _ _ _ _ _ _ S1). discriminate.
Qed.

(** The second data directory has no database, and the library reports the
    missing table. *)
Lemma total_gold_sales_creates_database_witness :
  exists w',
    run_task second_ext "total_gold_sales" second_world =
    Outcome
      [Guard "data/ticket-sales.db"; Guard "data/ticket-sales-gold.txt";
       Access Connect "data/ticket-sales.db"]
      (inr (HTTPException 500 "no such table: tickets")) w'
    /\ file_text second_world "data/ticket-sales.db" = None
    /\ file_text w' "data/ticket-sales.db" = Some EmptyString
    /\ file_text w' "data/ticket-sales-gold.txt" =
       file_text second_world "data/ticket-sales-gold.txt".
Proof.
  exact (total_gold_sales_creates_database second_ext second_world
           "no such table: tickets" eq_refl eq_refl eq_refl).
Defined.
